(** * Mini Seller Console: leads, opportunities and the leads view

    A shallow embedding of the console's logic (App.tsx, LeadsList.tsx,
    LeadDetailPanel.tsx, types.tsx) and the properties of its state
    transitions, of the filter / sort / paginate pipeline, of the
    preference store and of the email check.

    React state is threaded explicitly: a handler is a function from the
    state it closes over to the state after its setters have been applied,
    in the order the handler calls them.  Sources of randomness
    ([Math.random()]) are arguments of the handlers that draw them.  The
    page navigation handlers of the leads view await a delay: each is
    split into the part run at the click and the part run when the delay
    ends, on the state of that moment. *)

From Stdlib Require Import ZArith QArith Qround Lia List Ascii String.
From Stdlib Require Import Permutation DecimalString.
From stdpp Require Import base gmap strings.

Local Open Scope Z_scope.
Import ListNotations.

(** ** JavaScript values used by the console *)

Module JS.

(** A JavaScript string is a sequence of UTF-16 code units. *)
Definition char16 := N.
Definition jsstring := list char16.

(** A string literal of the source, as code units. *)
Definition js (s : string) : jsstring :=
  map N_of_ascii (list_ascii_of_string s).

(** [s === t] on strings. *)
Fixpoint strEq (s t : jsstring) : bool :=
  match s, t with
  | [], [] => true
  | x :: s', y :: t' => N.eqb x y && strEq s' t'
  | _, _ => false
  end.

(** A string is truthy iff it is not empty; [null] is falsy. *)
Definition truthy (s : jsstring) : bool :=
  match s with [] => false | _ :: _ => true end.

(** [Array.prototype.includes] on an array of strings. *)
Definition arrayIncludes (a : list jsstring) (s : jsstring) : bool :=
  existsb (fun x => strEq x s) a.

(** [t] is a prefix of [s]. *)
Fixpoint startsWith (s t : jsstring) {struct t} : bool :=
  match t, s with
  | [], _ => true
  | y :: t', x :: s' => N.eqb x y && startsWith s' t'
  | _ :: _, [] => false
  end.

(** [s.includes(t)]: [t] occurs in [s] at some index. *)
Fixpoint includes (s t : jsstring) : bool :=
  startsWith s t ||
  match s with
  | [] => false
  | _ :: s' => includes s' t
  end.

(** [s < t] on strings: lexicographic on code units. *)
Fixpoint strLt (s t : jsstring) : bool :=
  match s, t with
  | _, [] => false
  | [], _ :: _ => true
  | x :: s', y :: t' =>
      if N.ltb x y then true
      else if N.eqb x y then strLt s' t'
      else false
  end.

(** The class [\s]: WhiteSpace and LineTerminator code units. *)
Definition isWhiteSpace (c : char16) : bool :=
  ((9 <=? c) && (c <=? 13) || (c =? 32) || (c =? 160) || (c =? 5760)
   || (8192 <=? c) && (c <=? 8202) || (c =? 8232) || (c =? 8233)
   || (c =? 8239) || (c =? 8287) || (c =? 12288) || (c =? 65279))%N.

(** [n.toString()] for an integer [n]. *)
Definition toString (n : Z) : jsstring :=
  js (NilZero.string_of_int (Z.to_int n)).

(** The value of a digit in a radix, if it is one. *)
Definition digitValue (radix : Z) (c : char16) : option Z :=
  let v :=
    if ((48 <=? c) && (c <=? 57))%N then Some (Z.of_N c - 48)
    else if ((97 <=? c) && (c <=? 122))%N then Some (Z.of_N c - 87)
    else if ((65 <=? c) && (c <=? 90))%N then Some (Z.of_N c - 55)
    else None in
  match v with
  | Some d => if d <? radix then Some d else None
  | None => None
  end.

Fixpoint parseDigits (radix acc : Z) (s : jsstring) : Z :=
  match s with
  | [] => acc
  | c :: s' =>
      match digitValue radix c with
      | Some d => parseDigits radix (acc * radix + d) s'
      | None => acc
      end
  end.

Fixpoint trimStart (s : jsstring) : jsstring :=
  match s with
  | c :: s' => if isWhiteSpace c then trimStart s' else s
  | [] => []
  end.

(** [parseInt(s)] with no radix argument; [None] stands for [NaN].
    Results are exact integers (the source only parses page sizes). *)
Definition parseInt (s : jsstring) : option Z :=
  let s1 := trimStart s in
  let '(sign, s2) :=
    match s1 with
    | c :: r => if (c =? 45)%N then (-1, r)
                else if (c =? 43)%N then (1, r) else (1, s1)
    | [] => (1, s1)
    end in
  let '(radix, s3) :=
    match s2 with
    | c0 :: x :: r =>
        if ((c0 =? 48) && ((x =? 120) || (x =? 88)))%N then (16, r)
        else (10, s2)
    | _ => (10, s2)
    end in
  match s3 with
  | c :: _ =>
      match digitValue radix c with
      | Some _ => Some (sign * parseDigits radix 0 s3)
      | None => None
      end
  | [] => None
  end.

(** [a.slice(start, end)]: negative indices count from the end, both
    are clamped to the array. *)
Definition slice {A : Type} (a : list A) (start final : Z) : list A :=
  let len := Z.of_nat (length a) in
  let k := if start <? 0 then Z.max (len + start) 0 else Z.min start len in
  let e := if final <? 0 then Z.max (len + final) 0 else Z.min final len in
  firstn (Z.to_nat (Z.max (e - k) 0)) (skipn (Z.to_nat k) a).

Definition Math_floor (x : Q) : Z := Qfloor x.
Definition Math_ceil (x : Q) : Z := Qceiling x.

(** [x < y] on numbers. *)
Definition numLt (x y : Q) : bool := negb (Qle_bool y x).

(** Numbers are binary64 values.  [p / 2^s] rounded to an integer, to
    nearest and ties to even, as binary64 rounds a significand. *)
Definition roundNearestEven (p s : Z) : Z :=
  let q := p / 2 ^ s in
  let r := p mod 2 ^ s in
  if 2 * r <? 2 ^ s then q
  else if 2 ^ s <? 2 * r then q + 1
  else if Z.even q then q else q + 1.

(** The binary64 product of [m / 2^e] and the integer [k], for
    [0 <= m < 2^53], [0 <= k] and [e <= 1074]: the exact product
    [m * k / 2^e] keeps 53 significant bits.  The result is
    [q * 2^s / 2^e] for the pair [(q, s)] returned. *)
Definition mulBinary64 (m k : Z) : Z * Z :=
  let p := m * k in
  let s := Z.max 0 (Z.log2 p - 52) in
  (roundNearestEven p s, s).

(** [Math.floor] of the binary64 value [q * 2^s / 2^e]. *)
Definition floorBinary64 (q s e : Z) : Z := (q * 2 ^ s) / 2 ^ e.

(** A result of [Math.random()]: the binary64 number
    [significand / 2^exponent]. *)
Record draw := mkDraw { significand : Z; exponent : Z }.

(** [Array.prototype.sort(cmp)] is stable; for a comparator that orders
    the elements consistently its result is the one of stable insertion:
    an element goes before the first element it does not exceed. *)
Section Sort.
Context {A : Type} (cmp : A -> A -> Z).

Fixpoint insertSorted (x : A) (l : list A) : list A :=
  match l with
  | [] => [x]
  | y :: l' => if 0 <? cmp x y then y :: insertSorted x l' else x :: l
  end.

Definition sort (l : list A) : list A := fold_right insertSorted [] l.
End Sort.

(** Regular expressions of the shape the source uses: an anchored
    sequence [^t1 t2 ... tn$] of atoms, each taken once or with [+]. *)
Inductive atom :=
| Lit (c : char16)
| NotIn (cls : char16 -> bool).

Inductive term :=
| One (a : atom)
| OneOrMore (a : atom).

Definition atomMatches (a : atom) (c : char16) : bool :=
  match a with
  | Lit x => N.eqb c x
  | NotIn cls => negb (cls c)
  end.

(** [a+] followed by the continuation [k]: greedy, backtracking. *)
Fixpoint matchPlus (a : atom) (k : jsstring -> bool) (s : jsstring) : bool :=
  match s with
  | [] => false
  | c :: s' => atomMatches a c && (matchPlus a k s' || k s')
  end.

Definition matchTerm (t : term) (k : jsstring -> bool) (s : jsstring) : bool :=
  match t with
  | One a => match s with
             | [] => false
             | c :: s' => atomMatches a c && k s'
             end
  | OneOrMore a => matchPlus a k s
  end.

(** The end anchor [$] (no multiline flag): only the end of input. *)
Definition atEnd (s : jsstring) : bool :=
  match s with [] => true | _ :: _ => false end.

Fixpoint matchTerms (r : list term) : jsstring -> bool :=
  match r with
  | [] => atEnd
  | t :: r' => matchTerm t (matchTerms r')
  end.

(** [r.test(s)] for an anchored [r]: the match can only start at 0. *)
Definition test (r : list term) (s : jsstring) : bool := matchTerms r s.

End JS.

Import JS.

(** ** types.tsx *)

Inductive LeadStatus := New | Contacted | Qualified.

Definition LeadStatus_eqb (a b : LeadStatus) : bool :=
  match a, b with
  | New, New | Contacted, Contacted | Qualified, Qualified => true
  | _, _ => false
  end.

Module Lead.
Record t := mk {
  id : Z;
  name : jsstring;
  company : jsstring;
  email : jsstring;
  source : jsstring;
  score : Z;
  status : LeadStatus
}.

(** [{ ...lead, status: s }] *)
Definition withStatus (s : LeadStatus) (lead : t) : t :=
  mk (id lead) (name lead) (company lead) (email lead) (source lead)
     (score lead) s.

(** [{ ...lead, email: e }] *)
Definition withEmail (e : jsstring) (lead : t) : t :=
  mk (id lead) (name lead) (company lead) e (source lead)
     (score lead) (status lead).
End Lead.

Module Opportunity.
Record t := mk {
  id : Z;
  name : jsstring;
  stage : jsstring;
  amount : option Z;
  accountName : jsstring;
  leadId : Z
}.
End Opportunity.

(** ** App.tsx: the application state owner *)

Module App.

Inductive Tab := TabLeads | TabOpps.

Record State := mkState {
  leads : list Lead.t;
  opportunities : list Opportunity.t;
  selectedLead : option Lead.t;
  isLoading : bool;
  isModalLoading : bool;
  error : option jsstring;
  activeTab : Tab
}.

(** The state the component mounts with. *)
Definition initial : State :=
  mkState [] [] None true false None TabLeads.

Definition setLeads (f : list Lead.t -> list Lead.t) (st : State) : State :=
  mkState (f (leads st)) (opportunities st) (selectedLead st)
          (isLoading st) (isModalLoading st) (error st) (activeTab st).

Definition setOpportunities (f : list Opportunity.t -> list Opportunity.t)
    (st : State) : State :=
  mkState (leads st) (f (opportunities st)) (selectedLead st)
          (isLoading st) (isModalLoading st) (error st) (activeTab st).

Definition setSelectedLead (v : option Lead.t) (st : State) : State :=
  mkState (leads st) (opportunities st) v
          (isLoading st) (isModalLoading st) (error st) (activeTab st).

Definition setIsLoading (v : bool) (st : State) : State :=
  mkState (leads st) (opportunities st) (selectedLead st)
          v (isModalLoading st) (error st) (activeTab st).

Definition setIsModalLoading (v : bool) (st : State) : State :=
  mkState (leads st) (opportunities st) (selectedLead st)
          (isLoading st) v (error st) (activeTab st).

Definition setError (v : option jsstring) (st : State) : State :=
  mkState (leads st) (opportunities st) (selectedLead st)
          (isLoading st) (isModalLoading st) v (activeTab st).

Definition setActiveTab (v : Tab) (st : State) : State :=
  mkState (leads st) (opportunities st) (selectedLead st)
          (isLoading st) (isModalLoading st) (error st) v.

(** What [fetch('/leads.json')] and [response.json()] came to. *)
Inductive FetchResult :=
| FetchOk (data : list Lead.t)
| FetchNotOk
| FetchThrew (message : option jsstring).

(** [loadLeads] up to its first [await]. *)
Definition loadLeadsStart (st : State) : State :=
  setError None (setIsLoading true st).

(** [loadLeads] from the fetch to the [finally]. *)
Definition loadLeadsFinish (r : FetchResult) (st : State) : State :=
  let st :=
    match r with
    | FetchOk data => setLeads (fun _ => data) st
    | FetchNotOk => setError (Some (js "Failed to load leads")) st
    | FetchThrew (Some m) => setError (Some m) st
    | FetchThrew None => setError (Some (js "An error occurred")) st
    end in
  setIsLoading false st.

(** The view shown: [Loading], [Error] or the console itself. *)
Inductive Screen := Loading | Error | Ready.

Definition screen (st : State) : Screen :=
  if isLoading st then Loading
  else match error st with
       | Some m => if truthy m then Error else Ready
       | None => Ready
       end.

(** [handleLeadSelect] after its delay. *)
Definition handleLeadSelect (lead : Lead.t) (st : State) : State :=
  setSelectedLead (Some lead) (setIsModalLoading true st).

Definition handleLeadUpdate (updatedLead : Lead.t) (st : State) : State :=
  let st :=
    setLeads (fun prevLeads =>
      map (fun lead =>
             if Lead.id lead =? Lead.id updatedLead then updatedLead
             else lead)
          prevLeads) st in
  setSelectedLead (Some updatedLead) st.

(** [Math.floor(x * 100000) + 10000] in binary64, for the number
    [x = m / 2^e]: every binary64 value of [0, 1) is such a quotient
    with [0 <= m < 2^53] and [53 <= e <= 1074]. *)
Definition randomAmount64 (m e : Z) : Z :=
  let '(q, s) := mulBinary64 m 100000 in
  floorBinary64 q s e + 10000.

(** [Math.floor(Math.random() * 100000) + 10000], [random] being the
    draw. *)
Definition randomAmount (random : draw) : Z :=
  randomAmount64 (significand random) (exponent random).

Definition handleConvertToOpportunity (random : draw) (lead : Lead.t)
    (st : State) : State :=
  let newOpportunity :=
    Opportunity.mk
      (Z.of_nat (length (opportunities st)) + 1)
      (Lead.name lead)
      (js "Prospecting")
      (Some (randomAmount random))
      (Lead.company lead)
      (Lead.id lead) in
  let st := setOpportunities (fun prev => prev ++ [newOpportunity]) st in
  let updatedLead := Lead.withStatus Qualified lead in
  let st := handleLeadUpdate updatedLead st in
  let st := setSelectedLead None st in
  setActiveTab TabOpps st.

Definition handleClosePanel (st : State) : State :=
  setSelectedLead None st.

End App.


(** ** LeadsList.tsx: filter, sort, paginate, stored preferences *)

Module LeadsList.

(** [LeadStatus | 'All'] *)
Inductive StatusFilter := All | Only (s : LeadStatus).

Inductive SortKey := score | name | company.

Inductive SortOrder := asc | desc.

Definition StatusFilter_eqb (a b : StatusFilter) : bool :=
  match a, b with
  | All, All => true
  | Only x, Only y => LeadStatus_eqb x y
  | _, _ => false
  end.

Definition SortKey_eqb (a b : SortKey) : bool :=
  match a, b with
  | score, score | name, name | company, company => true
  | _, _ => false
  end.

Definition SortOrder_eqb (a b : SortOrder) : bool :=
  match a, b with
  | asc, asc | desc, desc => true
  | _, _ => false
  end.

(** The string each union member is at run time, and back. *)
Definition statusToString (s : LeadStatus) : jsstring :=
  match s with
  | New => js "New"
  | Contacted => js "Contacted"
  | Qualified => js "Qualified"
  end.

Definition statusFilterToString (f : StatusFilter) : jsstring :=
  match f with
  | All => js "All"
  | Only s => statusToString s
  end.

Definition sortKeyToString (k : SortKey) : jsstring :=
  match k with
  | score => js "score"
  | name => js "name"
  | company => js "company"
  end.

Definition sortOrderToString (o : SortOrder) : jsstring :=
  match o with
  | asc => js "asc"
  | desc => js "desc"
  end.

Definition statusFilterOfString (s : jsstring) : option StatusFilter :=
  if strEq s (js "New") then Some (Only New)
  else if strEq s (js "Contacted") then Some (Only Contacted)
  else if strEq s (js "Qualified") then Some (Only Qualified)
  else if strEq s (js "All") then Some All
  else None.

Definition sortKeyOfString (s : jsstring) : option SortKey :=
  if strEq s (js "score") then Some score
  else if strEq s (js "name") then Some name
  else if strEq s (js "company") then Some company
  else None.

Definition sortOrderOfString (s : jsstring) : option SortOrder :=
  if strEq s (js "asc") then Some asc
  else if strEq s (js "desc") then Some desc
  else None.

Record ViewState := mkView {
  searchTerm : jsstring;
  statusFilter : StatusFilter;
  sortBy : SortKey;
  sortOrder : SortOrder;
  currentPage : Z;
  pageSize : Z;
  isPageLoading : bool
}.

(** The arguments of the [useState] calls. *)
Definition initial : ViewState := mkView [] All score desc 1 10 false.

Definition setSearchTerm (v : jsstring) (st : ViewState) : ViewState :=
  mkView v (statusFilter st) (sortBy st) (sortOrder st)
         (currentPage st) (pageSize st) (isPageLoading st).

Definition setStatusFilter (v : StatusFilter) (st : ViewState) : ViewState :=
  mkView (searchTerm st) v (sortBy st) (sortOrder st)
         (currentPage st) (pageSize st) (isPageLoading st).

Definition setSortBy (v : SortKey) (st : ViewState) : ViewState :=
  mkView (searchTerm st) (statusFilter st) v (sortOrder st)
         (currentPage st) (pageSize st) (isPageLoading st).

Definition setSortOrder (v : SortOrder) (st : ViewState) : ViewState :=
  mkView (searchTerm st) (statusFilter st) (sortBy st) v
         (currentPage st) (pageSize st) (isPageLoading st).

Definition setCurrentPage (v : Z) (st : ViewState) : ViewState :=
  mkView (searchTerm st) (statusFilter st) (sortBy st) (sortOrder st)
         v (pageSize st) (isPageLoading st).

Definition setPageSize (v : Z) (st : ViewState) : ViewState :=
  mkView (searchTerm st) (statusFilter st) (sortBy st) (sortOrder st)
         (currentPage st) v (isPageLoading st).

Definition setIsPageLoading (v : bool) (st : ViewState) : ViewState :=
  mkView (searchTerm st) (statusFilter st) (sortBy st) (sortOrder st)
         (currentPage st) (pageSize st) v.

(** [localStorage]: string keys to string values. *)
Abbreviation Storage := (gmap string jsstring).

Definition getItem (key : string) (localStorage : Storage) : option jsstring :=
  localStorage !! key.

Definition setItem (key : string) (value : jsstring) (localStorage : Storage)
    : Storage :=
  <[key := value]> localStorage.

(** [if (saved && ok(saved)) apply(saved)]; [null] is falsy. *)
Definition whenSaved (saved : option jsstring) (ok : jsstring -> bool)
    (apply : jsstring -> ViewState -> ViewState) (st : ViewState) : ViewState :=
  match saved with
  | Some s => if truthy s && ok s then apply s st else st
  | None => st
  end.

(** The initializer that loads the saved filters on mount, run on the
    state of the [useState] defaults.  A cast [as T] keeps the string; the
    [includes] test before it leaves only members of [T]. *)
Definition loadSavedFilters (localStorage : Storage) : ViewState :=
  let savedSearch := getItem "leads-search" localStorage in
  let savedStatus := getItem "leads-status-filter" localStorage in
  let savedSortBy := getItem "leads-sort-by" localStorage in
  let savedSortOrder := getItem "leads-sort-order" localStorage in
  let savedPageSize := getItem "leads-page-size" localStorage in
  let st := initial in
  let st := whenSaved savedSearch (fun _ => true) setSearchTerm st in
  let st :=
    whenSaved savedStatus
      (arrayIncludes [js "New"; js "Contacted"; js "Qualified"; js "All"])
      (fun s st => match statusFilterOfString s with
                   | Some f => setStatusFilter f st
                   | None => st
                   end) st in
  let st :=
    whenSaved savedSortBy
      (arrayIncludes [js "score"; js "name"; js "company"])
      (fun s st => match sortKeyOfString s with
                   | Some k => setSortBy k st
                   | None => st
                   end) st in
  let st :=
    whenSaved savedSortOrder
      (arrayIncludes [js "asc"; js "desc"])
      (fun s st => match sortOrderOfString s with
                   | Some o => setSortOrder o st
                   | None => st
                   end) st in
  whenSaved savedPageSize
    (arrayIncludes [js "5"; js "10"; js "20"; js "50"])
    (fun s st => match parseInt s with
                 | Some n => setPageSize n st
                 | None => st
                 end) st.

(** [pageSize?: number] is [None] when the argument is left out; a
    number is truthy iff it is not 0. *)
Definition saveFilters (search : jsstring) (status : StatusFilter)
    (sort order : jsstring) (pageSize : option Z) (localStorage : Storage)
    : Storage :=
  let localStorage := setItem "leads-search" search localStorage in
  let localStorage :=
    setItem "leads-status-filter" (statusFilterToString status) localStorage in
  let localStorage := setItem "leads-sort-by" sort localStorage in
  let localStorage := setItem "leads-sort-order" order localStorage in
  match pageSize with
  | Some n =>
      if n =? 0 then localStorage
      else setItem "leads-page-size" (toString n) localStorage
  | None => localStorage
  end.

Section View.

(** [String.prototype.toLowerCase], the Unicode lower-casing of the
    engine. *)
Variable toLowerCase : jsstring -> jsstring.

Definition matchesSearch (searchTerm : jsstring) (lead : Lead.t) : bool :=
  includes (toLowerCase (Lead.name lead)) (toLowerCase searchTerm)
  || includes (toLowerCase (Lead.company lead)) (toLowerCase searchTerm).

Definition matchesStatus (statusFilter : StatusFilter) (lead : Lead.t) : bool :=
  StatusFilter_eqb statusFilter All
  || StatusFilter_eqb (Only (Lead.status lead)) statusFilter.

(** The callback of [leads.filter]. *)
Definition keeps (searchTerm : jsstring) (statusFilter : StatusFilter)
    (lead : Lead.t) : bool :=
  matchesSearch searchTerm lead && matchesStatus statusFilter lead.

Definition filtered (leads : list Lead.t) (searchTerm : jsstring)
    (statusFilter : StatusFilter) : list Lead.t :=
  List.filter (keeps searchTerm statusFilter) leads.

(** The comparator of [filtered.sort]: [aValue < bValue], then
    [aValue > bValue], on the values the [switch] picks. *)
Definition compareLeads (sortBy : SortKey) (sortOrder : SortOrder)
    (a b : Lead.t) : Z :=
  let '(isLt, isGt) :=
    match sortBy with
    | score =>
        (Lead.score a <? Lead.score b, Lead.score b <? Lead.score a)
    | name =>
        (strLt (toLowerCase (Lead.name a)) (toLowerCase (Lead.name b)),
         strLt (toLowerCase (Lead.name b)) (toLowerCase (Lead.name a)))
    | company =>
        (strLt (toLowerCase (Lead.company a)) (toLowerCase (Lead.company b)),
         strLt (toLowerCase (Lead.company b)) (toLowerCase (Lead.company a)))
    end in
  if isLt then (if SortOrder_eqb sortOrder asc then -1 else 1)
  else if isGt then (if SortOrder_eqb sortOrder asc then 1 else -1)
  else 0.

Definition filteredAndSortedLeads (leads : list Lead.t) (st : ViewState)
    : list Lead.t :=
  sort (compareLeads (sortBy st) (sortOrder st))
       (filtered leads (searchTerm st) (statusFilter st)).

End View.

(** [Math.ceil(length / pageSize)] in exact arithmetic, for a page size
    other than 0 (the state only ever holds 5, 10, 20 or 50). *)
Definition totalPagesOf (length : nat) (pageSize : Z) : Z :=
  Math_ceil (inject_Z (Z.of_nat length) / inject_Z pageSize).

Definition startIndex (currentPage pageSize : Z) : Z :=
  (currentPage - 1) * pageSize.

Definition endIndex (currentPage pageSize : Z) : Z :=
  startIndex currentPage pageSize + pageSize.

(** The slice shown for a page of an already filtered and sorted list. *)
Definition pageOf (sorted : list Lead.t) (currentPage pageSize : Z)
    : list Lead.t :=
  slice sorted (startIndex currentPage pageSize)
        (endIndex currentPage pageSize).

Definition totalPages (toLowerCase : jsstring -> jsstring)
    (leads : list Lead.t) (st : ViewState) : Z :=
  totalPagesOf (length (filteredAndSortedLeads toLowerCase leads st))
               (pageSize st).

Definition paginatedLeads (toLowerCase : jsstring -> jsstring)
    (leads : list Lead.t) (st : ViewState) : list Lead.t :=
  pageOf (filteredAndSortedLeads toLowerCase leads st)
         (currentPage st) (pageSize st).

(** The effect on [[searchTerm, statusFilter, sortBy, sortOrder]]: after a
    render in which one of them differs from the render before, the page
    goes back to 1. *)
Definition filtersChanged (prev next : ViewState) : bool :=
  negb (strEq (searchTerm prev) (searchTerm next)
        && StatusFilter_eqb (statusFilter prev) (statusFilter next)
        && SortKey_eqb (sortBy prev) (sortBy next)
        && SortOrder_eqb (sortOrder prev) (sortOrder next)).

Definition resetPageEffect (prev next : ViewState) : ViewState :=
  if filtersChanged prev next then setCurrentPage 1 next else next.

(** The change handlers; each returns the view state and the store. *)
Definition handleSearchChange (value : jsstring) (st : ViewState)
    (localStorage : Storage) : ViewState * Storage :=
  (setSearchTerm value st,
   saveFilters value (statusFilter st) (sortKeyToString (sortBy st))
               (sortOrderToString (sortOrder st)) None localStorage).

Definition handleStatusFilterChange (value : StatusFilter) (st : ViewState)
    (localStorage : Storage) : ViewState * Storage :=
  (setStatusFilter value st,
   saveFilters (searchTerm st) value (sortKeyToString (sortBy st))
               (sortOrderToString (sortOrder st)) None localStorage).

Definition handleSortChange (field : SortKey) (st : ViewState)
    (localStorage : Storage) : ViewState * Storage :=
  let newOrder :=
    if SortKey_eqb (sortBy st) field && SortOrder_eqb (sortOrder st) desc
    then asc else desc in
  (setSortOrder newOrder (setSortBy field st),
   saveFilters (searchTerm st) (statusFilter st) (sortKeyToString field)
               (sortOrderToString newOrder) None localStorage).

Definition handlePageSizeChange (value : Z) (st : ViewState)
    (localStorage : Storage) : ViewState * Storage :=
  (setCurrentPage 1 (setPageSize value st),
   saveFilters (searchTerm st) (statusFilter st) (sortKeyToString (sortBy st))
               (sortOrderToString (sortOrder st)) (Some value) localStorage).

(** The page navigation handlers.  Each one sets the loading flag,
    awaits 300 ms, and then sets the page and clears the flag.  What
    runs after the delay acts on the state of that moment, with the
    values the handler captured at the click ([page], [totalPages]);
    previous and next update the page from its value of that moment. *)
Definition pageLoadingStart (st : ViewState) : ViewState :=
  setIsPageLoading true st.

Definition handlePageChangeFinish (page : Z) (st : ViewState) : ViewState :=
  setIsPageLoading false (setCurrentPage page st).

Definition goToFirstPageFinish (st : ViewState) : ViewState :=
  setIsPageLoading false (setCurrentPage 1 st).

Definition goToLastPageFinish (totalPages : Z) (st : ViewState) : ViewState :=
  setIsPageLoading false (setCurrentPage totalPages st).

Definition goToPreviousPageFinish (st : ViewState) : ViewState :=
  setIsPageLoading false (setCurrentPage (Z.max 1 (currentPage st - 1)) st).

Definition goToNextPageFinish (totalPages : Z) (st : ViewState) : ViewState :=
  setIsPageLoading false
    (setCurrentPage (Z.min totalPages (currentPage st + 1)) st).

(** A handler waiting for its delay to end, with what it captured. *)
Inductive Pending :=
| PendingPageChange (page : Z)
| PendingFirstPage
| PendingLastPage (totalPages : Z)
| PendingPreviousPage
| PendingNextPage (totalPages : Z).

(** The delay of a waiting handler ends. *)
Definition resume (p : Pending) (st : ViewState) : ViewState :=
  match p with
  | PendingPageChange page => handlePageChangeFinish page st
  | PendingFirstPage => goToFirstPageFinish st
  | PendingLastPage totalPages => goToLastPageFinish totalPages st
  | PendingPreviousPage => goToPreviousPageFinish st
  | PendingNextPage totalPages => goToNextPageFinish totalPages st
  end.

(** What the user can do to the filters and the page size. *)
Inductive Change :=
| SearchChange (value : jsstring)
| StatusFilterChange (value : StatusFilter)
| SortChange (field : SortKey)
| PageSizeChange (value : Z).

(** A change handler, the render it causes and the effect after it. *)
Definition change (c : Change) (cur : ViewState * Storage)
    : ViewState * Storage :=
  let '(st, localStorage) := cur in
  let '(st', localStorage') :=
    match c with
    | SearchChange v => handleSearchChange v st localStorage
    | StatusFilterChange v => handleStatusFilterChange v st localStorage
    | SortChange f => handleSortChange f st localStorage
    | PageSizeChange v => handlePageSizeChange v st localStorage
    end in
  (resetPageEffect st st', localStorage').

(** The options of the page size selector. *)
Definition pageSizeOptions : list Z := [5; 10; 20; 50].

(** The header line "Showing a-b of n". *)
Definition showingFrom (currentPage pageSize : Z) : Z :=
  startIndex currentPage pageSize + 1.

Definition showingTo (length : nat) (currentPage pageSize : Z) : Z :=
  Z.min (endIndex currentPage pageSize) (Z.of_nat length).

(** What the component renders: the empty state when there are no leads
    at all, else the table, with the no-match message and the pagination
    controls when their conditions hold. *)
Definition showsEmptyState (leads : list Lead.t) : bool :=
  Z.of_nat (length leads) =? 0.

Definition showsNoMatch (sorted : list Lead.t) : bool :=
  Z.of_nat (length sorted) =? 0.

Definition showsPagination (totalPages : Z) : bool := 1 <? totalPages.

(** The number on the button of index [i] in the row of page numbers. *)
Definition pageNum (totalPages currentPage i : Z) : Z :=
  if totalPages <=? 5 then i + 1
  else if currentPage <=? 3 then i + 1
  else if totalPages - 2 <=? currentPage then totalPages - 4 + i
  else currentPage - 2 + i.

(** [Array.from({ length: Math.min(5, totalPages) }, (_, i) => pageNum)] *)
Definition pageButtons (totalPages currentPage : Z) : list Z :=
  map (fun i => pageNum totalPages currentPage (Z.of_nat i))
      (seq 0 (Z.to_nat (Z.min 5 totalPages))).

(** The pagination controls.  They are rendered when there is more than
    one page, and a disabled button does not call its handler: first and
    previous are disabled on page 1, next and last on the last page. *)
Inductive Nav :=
| NavFirst
| NavPrevious
| NavPage (i : nat)
| NavNext
| NavLast.

(** A click on a control in the render of state [st], whose page count is
    [totalPages]: the state after the handler's first statement and the
    handler left waiting, if the click reached a handler. *)
Definition click (totalPages : Z) (n : Nav) (st : ViewState)
    : ViewState * option Pending :=
  if negb (showsPagination totalPages) then (st, None)
  else
    match n with
    | NavFirst =>
        if currentPage st =? 1 then (st, None)
        else (pageLoadingStart st, Some PendingFirstPage)
    | NavPrevious =>
        if currentPage st =? 1 then (st, None)
        else (pageLoadingStart st, Some PendingPreviousPage)
    | NavPage i =>
        match pageButtons totalPages (currentPage st) !! i with
        | Some page => (pageLoadingStart st, Some (PendingPageChange page))
        | None => (st, None)
        end
    | NavNext =>
        if currentPage st =? totalPages then (st, None)
        else (pageLoadingStart st, Some (PendingNextPage totalPages))
    | NavLast =>
        if currentPage st =? totalPages then (st, None)
        else (pageLoadingStart st, Some (PendingLastPage totalPages))
    end.

End LeadsList.


(** ** OpportunitiesTable.tsx *)

Module OpportunitiesTable.

(** [opp.amount || 0]: an absent amount and the amount 0 are falsy. *)
Definition amountOrZero (opp : Opportunity.t) : Z :=
  match Opportunity.amount opp with
  | Some a => if a =? 0 then 0 else a
  | None => 0
  end.

(** The total of the summary row:
    [opportunities.reduce((sum, opp) => sum + (opp.amount || 0), 0)]. *)
Definition totalValue (opportunities : list Opportunity.t) : Z :=
  fold_left (fun sum opp => sum + amountOrZero opp) opportunities 0.

(** The amount cell: the amount to format, or [None] for 'N/A'. *)
Definition amountCell (opp : Opportunity.t) : option Z :=
  match Opportunity.amount opp with
  | Some a => if a =? 0 then None else Some a
  | None => None
  end.

(** The "No Opportunities Yet" state. *)
Definition showsEmptyState (opportunities : list Opportunity.t) : bool :=
  Z.of_nat (length opportunities) =? 0.

End OpportunitiesTable.


(** ** LeadDetailPanel.tsx: the detail and edit panel *)

Module LeadDetailPanel.

Record PanelState := mkPanel {
  isEditing : bool;
  editedLead : Lead.t;
  (** [errors.email], [None] when absent *)
  errors : option jsstring;
  isSaving : bool
}.

Definition setIsEditing (v : bool) (st : PanelState) : PanelState :=
  mkPanel v (editedLead st) (errors st) (isSaving st).

Definition setEditedLead (f : Lead.t -> Lead.t) (st : PanelState) : PanelState :=
  mkPanel (isEditing st) (f (editedLead st)) (errors st) (isSaving st).

Definition setErrors (v : option jsstring) (st : PanelState) : PanelState :=
  mkPanel (isEditing st) (editedLead st) v (isSaving st).

Definition setIsSaving (v : bool) (st : PanelState) : PanelState :=
  mkPanel (isEditing st) (editedLead st) (errors st) v.

(** The panel as it opens on a lead; also the effect on [[lead]]. *)
Definition opened (lead : Lead.t) : PanelState :=
  mkPanel false lead None false.

(** The class [[^\s@]] names the characters it excludes. *)
Definition spaceOrAt (c : char16) : bool := isWhiteSpace c || (c =? 64)%N.

(** [/^[^\s@]+@[^\s@]+\.[^\s@]+$/] *)
Definition emailRegex : list term :=
  [OneOrMore (NotIn spaceOrAt); One (Lit 64%N);
   OneOrMore (NotIn spaceOrAt); One (Lit 46%N);
   OneOrMore (NotIn spaceOrAt)].

Definition validateEmail (email : jsstring) : bool := test emailRegex email.

Definition invalidEmailMessage : jsstring :=
  js "Please enter a valid email address".

Definition saveFailedMessage : jsstring :=
  js "Failed to save changes. Please try again.".

(** [handleFieldChange('email', value)] *)
Definition handleEmailChange (value : jsstring) (st : PanelState) : PanelState :=
  let st' := setEditedLead (Lead.withEmail value) st in
  match errors st with
  | Some m => if truthy m then setErrors None st' else st'
  | None => st'
  end.

(** [handleFieldChange('status', value)], [value] an option of the
    status selector. *)
Definition handleStatusChange (value : LeadStatus) (st : PanelState)
    : PanelState :=
  setEditedLead (Lead.withStatus value) st.

(** [handleSave]: the panel state after it, and the lead [onUpdate] was
    called with, if it was called.  [random] is the draw of the simulated
    failure. *)
Definition handleSave (random : Q) (st : PanelState)
    : PanelState * option Lead.t :=
  if negb (validateEmail (Lead.email (editedLead st))) then
    (setErrors (Some invalidEmailMessage) st, None)
  else
    let st := setIsSaving true st in
    if numLt random (1 # 10) then
      let st := setErrors (Some saveFailedMessage) st in
      (setIsSaving false st, None)
    else
      let updated := editedLead st in
      let st := setIsEditing false st in
      let st := setErrors None st in
      (setIsSaving false st, Some updated).

Definition handleCancel (lead : Lead.t) (st : PanelState) : PanelState :=
  setIsEditing false (setErrors None (setEditedLead (fun _ => lead) st)).

(** The "Edit Lead" button. *)
Definition startEditing (st : PanelState) : PanelState := setIsEditing true st.

(** The effect on [[lead]]: a new lead resets the buffer, the errors and
    the mode; [isSaving] is kept. *)
Definition leadChangedEffect (lead : Lead.t) (st : PanelState) : PanelState :=
  setIsEditing false (setErrors None (setEditedLead (fun _ => lead) st)).

End LeadDetailPanel.


(** ** Vocabulary of the properties *)


(** A list is ordered by a comparator when no element exceeds the next
    one. *)
Inductive ordered {A : Type} (cmp : A -> A -> Z) : list A -> Prop :=
| ordered_nil : ordered cmp []
| ordered_one (x : A) : ordered cmp [x]
| ordered_cons (x y : A) (l : list A) :
    cmp x y <= 0 -> ordered cmp (y :: l) -> ordered cmp (x :: y :: l).

(** The comparator of the sort on the two sort values, for a sort key
    whose values [lt] compares. *)
Definition keyCompare {K : Type} (lt : K -> K -> bool)
    (sortOrder : LeadsList.SortOrder) (x y : K) : Z :=
  if lt x y then (if LeadsList.SortOrder_eqb sortOrder LeadsList.asc
                  then -1 else 1)
  else if lt y x then (if LeadsList.SortOrder_eqb sortOrder LeadsList.asc
                       then 1 else -1)
  else 0.

(** The page numbers 1, 2, ..., n. *)
Definition pageNumbers (n : Z) : list Z :=
  map Z.of_nat (seq 1 (Z.to_nat n)).

(** Every character of [u] matches the atom. *)
Definition accepts (a : atom) (u : jsstring) : Prop :=
  Forall (fun c => atomMatches a c = true) u.

(** One or more characters, none of them white space or '@'. *)
Definition emailPart (u : jsstring) : Prop :=
  u <> [] /\ Forall (fun c => isWhiteSpace c = false /\ c <> 64%N) u.

(** The pattern of an email address: a part, '@', a part, '.', a part. *)
Definition emailShape (email : jsstring) : Prop :=
  exists u v w : jsstring,
    email = u ++ [64%N] ++ v ++ [46%N] ++ w
    /\ emailPart u /\ emailPart v /\ emailPart w.

(** ** Draws *)

(** The binary64 numbers of [0, 1): a significand of at most 53 bits over
    a power of two from 2^53 to 2^1074 (the subnormal numbers are the
    multiples of 2^-1074). *)
Definition unitDraw (random : draw) : Prop :=
  0 <= significand random < 2 ^ 53 /\ 53 <= exponent random <= 1074.

(** The number a draw stands for. *)
Definition drawValue (random : draw) : Q :=
  significand random # Z.to_pos (2 ^ exponent random).

(** ** Sessions: handlers applied one after the other *)

(** What the user can do to the console once it is Ready: open a lead,
    save it, convert it, close the panel, or show one of the two tabs. *)
Inductive AppAction :=
| Select (lead : Lead.t)
| Update (lead : Lead.t)
| Convert (random : draw) (lead : Lead.t)
| Close
| ShowTab (tab : App.Tab).

Definition appStep (st : App.State) (a : AppAction) : App.State :=
  match a with
  | Select lead => App.handleLeadSelect lead st
  | Update lead => App.handleLeadUpdate lead st
  | Convert random lead => App.handleConvertToOpportunity random lead st
  | Close => App.handleClosePanel st
  | ShowTab tab => App.setActiveTab tab st
  end.

Definition appRun (acts : list AppAction) (st : App.State) : App.State :=
  fold_left appStep acts st.

(** Every draw of a session is a binary64 number of [0, 1). *)
Definition drawsInUnit (acts : list AppAction) : Prop :=
  Forall (fun a => match a with
                   | Convert random _ => unitDraw random
                   | _ => True
                   end) acts.

Definition conversions (acts : list AppAction) : nat :=
  length (List.filter (fun a => match a with Convert _ _ => true | _ => false end)
                      acts).

(** A mounted leads view: its state, the store, and the navigation
    handlers waiting for their delay to end, oldest first. *)
Record viewSession := mkSession {
  sessionView : LeadsList.ViewState;
  sessionStore : gmap string jsstring;
  sessionPending : list LeadsList.Pending
}.

(** The view as it mounts on a store. *)
Definition mounted (store : gmap string jsstring) : viewSession :=
  mkSession (LeadsList.loadSavedFilters store) store [].

(** What happens in the leads view: the user changes a filter or the
    page size, the user clicks a pagination control of the current
    render, or the delay of the oldest waiting handler ends (the delays
    are all of 300 ms, so they end in the order of the clicks). *)
Inductive ViewAction :=
| DoChange (c : LeadsList.Change)
| Click (n : LeadsList.Nav)
| TimerFires.

Definition viewStep (toLowerCase : jsstring -> jsstring) (leads : list Lead.t)
    (cur : viewSession) (a : ViewAction) : viewSession :=
  match a with
  | DoChange c =>
      let '(st, store) :=
        LeadsList.change c (sessionView cur, sessionStore cur) in
      mkSession st store (sessionPending cur)
  | Click n =>
      let '(st, waiting) :=
        LeadsList.click
          (LeadsList.totalPages toLowerCase leads (sessionView cur))
          n (sessionView cur) in
      mkSession st (sessionStore cur)
                (sessionPending cur
                 ++ match waiting with Some p => [p] | None => [] end)
  | TimerFires =>
      match sessionPending cur with
      | [] => cur
      | p :: rest =>
          mkSession (LeadsList.resume p (sessionView cur))
                    (sessionStore cur) rest
      end
  end.

Definition viewRun (toLowerCase : jsstring -> jsstring) (leads : list Lead.t)
    (acts : list ViewAction) (cur : viewSession) : viewSession :=
  fold_left (viewStep toLowerCase leads) acts cur.

(** The page sizes chosen in a session are options of the selector. *)
Definition offeredSizesOnly (acts : list ViewAction) : Prop :=
  Forall (fun a => match a with
                   | DoChange (LeadsList.PageSizeChange v) =>
                       In v LeadsList.pageSizeOptions
                   | _ => True
                   end) acts.

(** No filter or page size is changed while a navigation handler waits
    for its delay to end. *)
Fixpoint calmSession (toLowerCase : jsstring -> jsstring)
    (leads : list Lead.t) (acts : list ViewAction) (cur : viewSession)
    : Prop :=
  match acts with
  | [] => True
  | a :: acts' =>
      match a with
      | DoChange _ => sessionPending cur = []
      | _ => True
      end
      /\ calmSession toLowerCase leads acts' (viewStep toLowerCase leads cur a)
  end.

(** A waiting handler will set a page of at least 1. *)
Definition pendingFromOne (p : LeadsList.Pending) : Prop :=
  match p with
  | LeadsList.PendingPageChange page => 1 <= page
  | LeadsList.PendingLastPage totalPages => 1 <= totalPages
  | LeadsList.PendingNextPage totalPages => 1 <= totalPages
  | _ => True
  end.

(** A waiting handler captured values that fit a page count. *)
Definition pendingFits (totalPages : Z) (p : LeadsList.Pending) : Prop :=
  match p with
  | LeadsList.PendingPageChange page => 1 <= page <= totalPages
  | LeadsList.PendingLastPage captured => captured = totalPages
  | LeadsList.PendingNextPage captured => captured = totalPages
  | _ => True
  end.

(** The view is in step with its store: the page size is an option of
    the selector, the page index is at least 1 and stays so when the
    waiting handlers resume, and the store would restore the five
    preferences. *)
Definition viewInStep (cur : viewSession) : Prop :=
  In (LeadsList.pageSize (sessionView cur)) LeadsList.pageSizeOptions
  /\ 1 <= LeadsList.currentPage (sessionView cur)
  /\ Forall pendingFromOne (sessionPending cur)
  /\ LeadsList.searchTerm (LeadsList.loadSavedFilters (sessionStore cur))
     = LeadsList.searchTerm (sessionView cur)
  /\ LeadsList.statusFilter (LeadsList.loadSavedFilters (sessionStore cur))
     = LeadsList.statusFilter (sessionView cur)
  /\ LeadsList.sortBy (LeadsList.loadSavedFilters (sessionStore cur))
     = LeadsList.sortBy (sessionView cur)
  /\ LeadsList.sortOrder (LeadsList.loadSavedFilters (sessionStore cur))
     = LeadsList.sortOrder (sessionView cur)
  /\ LeadsList.pageSize (LeadsList.loadSavedFilters (sessionStore cur))
     = LeadsList.pageSize (sessionView cur).

(** The view shows a page that exists, and will when the waiting
    handlers resume. *)
Definition viewOnPage (toLowerCase : jsstring -> jsstring)
    (leads : list Lead.t) (cur : viewSession) : Prop :=
  LeadsList.currentPage (sessionView cur)
  <= Z.max 1 (LeadsList.totalPages toLowerCase leads (sessionView cur))
  /\ Forall (pendingFits
               (LeadsList.totalPages toLowerCase leads (sessionView cur)))
            (sessionPending cur).

(** Two records agree on the fields the panel never edits. *)
Definition sameFixedFields (a b : Lead.t) : Prop :=
  Lead.id a = Lead.id b /\ Lead.name a = Lead.name b
  /\ Lead.company a = Lead.company b /\ Lead.source a = Lead.source b
  /\ Lead.score a = Lead.score b.

(** What the user can do in the panel shown for [lead]. *)
Inductive PanelAction :=
| Edit
| TypeEmail (value : jsstring)
| PickStatus (value : LeadStatus)
| Save (random : Q)
| Cancel.

(** A step of the panel on the lead it shows: the lead shown after it
    (the one saved, when Update lead was called), the panel state, and the
    record Update lead was called with, if it was. *)
Definition panelStep (cur : Lead.t * LeadDetailPanel.PanelState)
    (a : PanelAction)
    : Lead.t * LeadDetailPanel.PanelState * option Lead.t :=
  let '(lead, st) := cur in
  match a with
  | Edit => (lead, LeadDetailPanel.startEditing st, None)
  | TypeEmail v => (lead, LeadDetailPanel.handleEmailChange v st, None)
  | PickStatus v => (lead, LeadDetailPanel.handleStatusChange v st, None)
  | Save random =>
      match LeadDetailPanel.handleSave random st with
      | (st', Some updated) =>
          (updated, LeadDetailPanel.leadChangedEffect updated st', Some updated)
      | (st', None) => (lead, st', None)
      end
  | Cancel => (lead, LeadDetailPanel.handleCancel lead st, None)
  end.

(** The records Update lead is called with in a session of the panel,
    latest first, and where the session ends. *)
Fixpoint panelRun (acts : list PanelAction)
    (cur : Lead.t * LeadDetailPanel.PanelState)
    : Lead.t * LeadDetailPanel.PanelState * list Lead.t :=
  match acts with
  | [] => (cur, [])
  | a :: acts' =>
      let '(cur', emitted) := panelStep cur a in
      let '(final, updates) := panelRun acts' cur' in
      (final, updates ++ match emitted with Some u => [u] | None => [] end)
  end.

(** ** Sample data *)

(** [toLowerCase] on strings of ASCII characters. *)
Definition toLowerCaseAscii (s : jsstring) : jsstring :=
  map (fun c => if ((65 <=? c) && (c <=? 90))%N then (c + 32)%N else c) s.

Definition leadAcme : Lead.t :=
  Lead.mk 1 (js "Acme Corp Contact") (js "Acme Corp")
          (js "contact@acme.example") (js "Web") 92 New.

Definition leadBolt : Lead.t :=
  Lead.mk 2 (js "Bo Lindqvist") (js "Bolt Logistics")
          (js "bo@bolt.example") (js "Referral") 81 Contacted.

Definition leadCira : Lead.t :=
  Lead.mk 3 (js "cira mendes") (js "ACME Labs")
          (js "cira@labs.example") (js "Event") 92 Qualified.

Definition sampleLeads : list Lead.t := [leadAcme; leadBolt; leadCira].

(** Six new leads, and the view filtering on 'New', on page 2 of pages
    of 5. *)
Definition sixNewLeads : list Lead.t :=
  map (fun i => Lead.mk (Z.of_nat i) (js "Lead") (js "Company")
                        (js "lead@company.example") (js "Web")
                        (Z.of_nat i) New)
      (seq 1 6).

Definition stateSixNew : App.State :=
  App.loadLeadsFinish (App.FetchOk sixNewLeads)
                      (App.loadLeadsStart App.initial).

Definition viewNewPage2 : LeadsList.ViewState :=
  LeadsList.setCurrentPage 2
    (LeadsList.setPageSize 5
       (LeadsList.setStatusFilter (LeadsList.Only New) LeadsList.initial)).

(** The draws 0.5, 0.25 and the largest binary64 number below 1. *)
Definition drawHalf : draw := mkDraw (2 ^ 52) 53.

Definition drawQuarter : draw := mkDraw (2 ^ 51) 53.

Definition drawLargest : draw := mkDraw (2 ^ 53 - 1) 53.

(** A record whose id no sample lead has. *)
Definition leadStray : Lead.t :=
  Lead.mk 99 (js "Dana Stray") (js "Nowhere Ltd")
          (js "dana@nowhere.example") (js "Import") 50 New.

(** The console once the leads are loaded, with and without a selection. *)
Definition stateReady : App.State :=
  App.loadLeadsFinish (App.FetchOk sampleLeads)
                      (App.loadLeadsStart App.initial).

Definition stateBoltSelected : App.State :=
  App.handleLeadSelect leadBolt stateReady.

(** The panel editing Bolt's lead, the email typed over. *)
Definition panelBadEmail : LeadDetailPanel.PanelState :=
  LeadDetailPanel.handleEmailChange (js "not-an-email")
    (LeadDetailPanel.setIsEditing true (LeadDetailPanel.opened leadBolt)).

(** * Properties *)

(** ** The application state owner *)

Section AppProperties.

Import App.

Lemma setters_leads (R : Lead.t) (st : State) :
  leads (handleLeadUpdate R st)
  = map (fun lead => if Lead.id lead =? Lead.id R then R else lead) (leads st).
Proof. reflexivity. Qed.

Lemma map_replace_no_match (R : Lead.t) (ls : list Lead.t) :
  (forall l, In l ls -> Lead.id l <> Lead.id R) ->
  map (fun lead => if Lead.id lead =? Lead.id R then R else lead) ls = ls.
Proof.
  induction ls as [|l ls IH]; intros Hno; simpl; [reflexivity|].
  destruct (Z.eqb_spec (Lead.id l) (Lead.id R)) as [Heq|_].
  - exfalso. apply (Hno l); [now left | exact Heq].
  - f_equal. apply IH. intros l' Hin. apply Hno. now right.
Qed.

Lemma map_replace_lookup (R : Lead.t) (ls : list Lead.t) (i : nat) (l : Lead.t) :
  ls !! i = Some l ->
  map (fun lead => if Lead.id lead =? Lead.id R then R else lead) ls !! i
  = Some (if Lead.id l =? Lead.id R then R else l).
Proof.
  intros Hl. rewrite list_lookup_fmap, Hl. reflexivity.
Qed.

(** C6. Update lead with a record whose id no lead has leaves the lead
    collection as it was, and the handler is a total function (it has a
    result in every state, there is no error to raise).  In general the
    collection keeps its length and, position by position, holds the
    replacement where the id matches and the old record elsewhere. *)
Theorem handleLeadUpdate_collection (R : Lead.t) (st : State) :
  ((forall l, In l (leads st) -> Lead.id l <> Lead.id R) ->
   leads (handleLeadUpdate R st) = leads st)
  /\ length (leads (handleLeadUpdate R st)) = length (leads st)
  /\ (forall (i : nat) (l : Lead.t),
        leads st !! i = Some l ->
        leads (handleLeadUpdate R st) !! i
        = Some (if Lead.id l =? Lead.id R then R else l)).
Proof.
  rewrite setters_leads. split; [|split].
  - apply map_replace_no_match.
  - apply length_map.
  - intros i l. apply map_replace_lookup.
Qed.

Lemma handleLeadUpdate_collection_witness :
  (forall l, In l (leads stateReady) -> Lead.id l <> Lead.id leadStray)
  /\ leads (handleLeadUpdate leadStray stateReady) = leads stateReady.
Proof.
  assert (H : forall l, In l (leads stateReady) ->
                        Lead.id l <> Lead.id leadStray).
  { intros l [<-|[<-|[<-|[]]]]; discriminate. }
  split; [exact H|].
  apply (proj1 (handleLeadUpdate_collection leadStray stateReady) H).
Defined.

(** C2, as the code has it. Update lead makes the replacement record the
    active selection in every state: when the lead being updated is the
    selected one, and also when another lead or no lead is selected.  So
    the selection is left as it was only if it was that very record. *)
Theorem handleLeadUpdate_selects (R : Lead.t) (st : State) :
  selectedLead (handleLeadUpdate R st) = Some R
  /\ (selectedLead (handleLeadUpdate R st) = selectedLead st
      <-> selectedLead st = Some R).
Proof.
  assert (H : selectedLead (handleLeadUpdate R st) = Some R) by reflexivity.
  split; [exact H|]. rewrite H. split; intros E; congruence.
Qed.

(** C2 fails as stated: with no lead selected, and with another lead
    selected, Update lead changes the active selection. *)
Lemma handleLeadUpdate_selection_changes :
  (selectedLead stateReady = None
   /\ selectedLead (handleLeadUpdate leadAcme stateReady)
      <> selectedLead stateReady)
  /\ (selectedLead stateBoltSelected = Some leadBolt
      /\ Lead.id leadBolt <> Lead.id leadAcme
      /\ selectedLead (handleLeadUpdate leadAcme stateBoltSelected)
         <> selectedLead stateBoltSelected).
Proof.
  repeat split; discriminate.
Qed.

Lemma In_map_replace_self (R : Lead.t) (ls : list Lead.t) (X : Lead.t) :
  In X ls -> Lead.id X = Lead.id R ->
  In R (map (fun lead => if Lead.id lead =? Lead.id R then R else lead) ls).
Proof.
  intros Hin Hid. apply in_map_iff. exists X. split; [|exact Hin].
  rewrite Hid, Z.eqb_refl. reflexivity.
Qed.

Lemma In_map_replace_inv (R : Lead.t) (ls : list Lead.t) (l : Lead.t) :
  In l (map (fun lead => if Lead.id lead =? Lead.id R then R else lead) ls) ->
  Lead.id l = Lead.id R -> l = R.
Proof.
  intros Hin Hid. apply in_map_iff in Hin as [l0 [Hl0 _]].
  destruct (Z.eqb_spec (Lead.id l0) (Lead.id R)) as [_|Hne]; [now symmetry|].
  subst l0. contradiction.
Qed.

(** C1. Converting a lead X of the lead collection appends exactly one
    opportunity, whose id is the count of opportunities before the call
    plus 1, whose name and account name are X's name and company and whose
    stage is 'Prospecting'; in the same resulting state the collection
    holds, in place of every record with X's id, X with status
    'Qualified', and no lead is selected.  This holds in every state, so
    in the Ready state. *)
Theorem handleConvertToOpportunity_effect (random : draw) (X : Lead.t)
    (st : State) :
  In X (leads st) ->
  (exists o : Opportunity.t,
     opportunities (handleConvertToOpportunity random X st)
     = opportunities st ++ [o]
     /\ Opportunity.id o = Z.of_nat (length (opportunities st)) + 1
     /\ Opportunity.name o = Lead.name X
     /\ Opportunity.accountName o = Lead.company X
     /\ Opportunity.stage o = js "Prospecting")
  /\ In (Lead.withStatus Qualified X)
        (leads (handleConvertToOpportunity random X st))
  /\ (forall l : Lead.t,
        In l (leads (handleConvertToOpportunity random X st)) ->
        Lead.id l = Lead.id X ->
        l = Lead.withStatus Qualified X /\ Lead.status l = Qualified)
  /\ (forall (i : nat) (l : Lead.t),
        leads st !! i = Some l ->
        leads (handleConvertToOpportunity random X st) !! i
        = Some (if Lead.id l =? Lead.id X
                then Lead.withStatus Qualified X else l))
  /\ selectedLead (handleConvertToOpportunity random X st) = None.
Proof.
  intros HX.
  assert (Hleads : leads (handleConvertToOpportunity random X st)
                   = map (fun lead =>
                            if Lead.id lead =? Lead.id (Lead.withStatus Qualified X)
                            then Lead.withStatus Qualified X else lead)
                         (leads st)) by reflexivity.
  split; [|split; [|split; [|split]]].
  - eexists. split; [reflexivity|]. repeat split.
  - rewrite Hleads. apply (In_map_replace_self _ _ X); [exact HX | reflexivity].
  - intros l Hin Hid. rewrite Hleads in Hin.
    apply In_map_replace_inv in Hin; [|exact Hid].
    subst l. split; reflexivity.
  - intros i l Hl. rewrite Hleads.
    apply (map_replace_lookup (Lead.withStatus Qualified X)). exact Hl.
  - reflexivity.
Qed.

Lemma handleConvertToOpportunity_effect_witness :
  In leadAcme (leads stateBoltSelected)
  /\ selectedLead (handleConvertToOpportunity drawHalf leadAcme
                                              stateBoltSelected)
     = None.
Proof.
  assert (H : In leadAcme (leads stateBoltSelected)) by (simpl; auto).
  split; [exact H|].
  apply (handleConvertToOpportunity_effect drawHalf leadAcme
                                           stateBoltSelected H).
Defined.

End AppProperties.

(** ** The amount of a new opportunity *)

Section AmountProperties.

Import App.

(** The amount as binary64 arithmetic computes it. *)

Lemma roundNearestEven_near (p s : Z) :
  0 <= s ->
  2 * p - 2 ^ s <= 2 * (roundNearestEven p s * 2 ^ s) <= 2 * p + 2 ^ s.
Proof.
  intros Hs. unfold roundNearestEven.
  assert (Hd : 0 < 2 ^ s) by (apply Z.pow_pos_nonneg; lia).
  pose proof (Z.div_mod p (2 ^ s) ltac:(lia)) as Hdm.
  pose proof (Z.mod_pos_bound p (2 ^ s) Hd) as Hm.
  destruct (Z.ltb_spec (2 * (p mod 2 ^ s)) (2 ^ s));
    [nia|].
  destruct (Z.ltb_spec (2 ^ s) (2 * (p mod 2 ^ s))); [nia|].
  destruct (Z.even (p / 2 ^ s)); nia.
Qed.

Lemma mulBinary64_shift (m : Z) :
  0 <= m < 2 ^ 53 ->
  0 <= snd (mulBinary64 m 100000) <= 17.
Proof.
  intros Hm. unfold mulBinary64. cbn [snd].
  assert (Hp : m * 100000 < 2 ^ 70) by lia.
  destruct (Z.eq_dec m 0) as [->|Hne]; [simpl; lia|].
  assert (Hlog : Z.log2 (m * 100000) < 70)
    by (apply Z.log2_lt_pow2; lia).
  lia.
Qed.

Lemma mulBinary64_near (m : Z) :
  0 <= m < 2 ^ 53 ->
  m * 100000 - 2 ^ 16
  <= fst (mulBinary64 m 100000) * 2 ^ snd (mulBinary64 m 100000)
  <= m * 100000 + 2 ^ 16.
Proof.
  intros Hm. pose proof (mulBinary64_shift m Hm) as Hs.
  unfold mulBinary64 in *. cbn [fst snd] in *.
  set (s := Z.max 0 (Z.log2 (m * 100000) - 52)) in *.
  pose proof (roundNearestEven_near (m * 100000) s ltac:(lia)) as Hn.
  assert (H17 : 2 ^ s <= 2 ^ 17) by (apply Z.pow_le_mono_r; lia).
  change (2 ^ 17) with (2 * 2 ^ 16) in H17. lia.
Qed.

Lemma randomAmount64_unfold (m e : Z) :
  randomAmount64 m e
  = (fst (mulBinary64 m 100000) * 2 ^ snd (mulBinary64 m 100000)) / 2 ^ e
    + 10000.
Proof. reflexivity. Qed.

Lemma randomAmount64_bounds (m e : Z) :
  0 <= m < 2 ^ 53 -> 53 <= e ->
  10000 <= randomAmount64 m e < 110000.
Proof.
  intros Hm He. rewrite randomAmount64_unfold.
  pose proof (mulBinary64_near m Hm) as Hn.
  set (v := fst (mulBinary64 m 100000) * 2 ^ snd (mulBinary64 m 100000)) in *.
  assert (Hv0 : 0 <= v).
  { unfold v. apply Z.mul_nonneg_nonneg.
    - unfold mulBinary64, roundNearestEven. cbn [fst].
      assert (0 <= m * 100000 / 2 ^ Z.max 0 (Z.log2 (m * 100000) - 52))
        by (apply Z.div_pos; [lia | apply Z.pow_pos_nonneg; lia]).
      repeat match goal with
             | |- context [if ?b then _ else _] => destruct b
             end; lia.
    - apply Z.pow_nonneg. lia. }
  assert (He53 : 2 ^ 53 <= 2 ^ e) by (apply Z.pow_le_mono_r; lia).
  assert (Hpos : 0 < 2 ^ e) by lia.
  assert (Hlo : 0 <= v / 2 ^ e) by (apply Z.div_pos; lia).
  assert (Hhi : v / 2 ^ e < 100000).
  { apply Z.div_lt_upper_bound; [exact Hpos|].
    change (2 ^ 16) with 65536 in Hn. nia. }
  lia.
Qed.

Lemma randomAmount64_attained (k : Z) :
  0 <= k < 100000 ->
  0 <= (2 * k + 1) * 2 ^ 52 / 100000 + 1 < 2 ^ 53
  /\ randomAmount64 ((2 * k + 1) * 2 ^ 52 / 100000 + 1) 53 = k + 10000.
Proof.
  intros Hk.
  pose proof (Z.div_mod ((2 * k + 1) * 2 ^ 52) 100000 ltac:(lia)) as Hdm.
  pose proof (Z.mod_pos_bound ((2 * k + 1) * 2 ^ 52) 100000 ltac:(lia)) as Hmod.
  set (m := (2 * k + 1) * 2 ^ 52 / 100000 + 1) in *.
  assert (Hm : 0 <= m < 2 ^ 53).
  { unfold m. split.
    - assert (0 <= (2 * k + 1) * 2 ^ 52 / 100000) by (apply Z.div_pos; lia).
      lia.
    - assert ((2 * k + 1) * 2 ^ 52 / 100000 < 2 ^ 53 - 1); [|lia].
      apply Z.div_lt_upper_bound; lia. }
  split; [exact Hm|].
  rewrite randomAmount64_unfold.
  pose proof (mulBinary64_near m Hm) as Hn.
  set (v := fst (mulBinary64 m 100000) * 2 ^ snd (mulBinary64 m 100000)) in *.
  assert (Hp : (2 * k + 1) * 2 ^ 52 < m * 100000
               <= (2 * k + 1) * 2 ^ 52 + 100000) by (unfold m; lia).
  change (2 ^ 16) with 65536 in Hn.
  assert (Hq : v / 2 ^ 53 = k).
  { symmetry. apply (Z.div_unique v (2 ^ 53) k (v - 2 ^ 53 * k)); lia. }
  rewrite Hq. reflexivity.
Qed.

(** In binary64 the amount of every draw of [0, 1) is in
    [10000, 110000) too, and every integer of the range is the amount of
    some binary64 draw. *)
Theorem randomAmount64_range :
  (forall m e : Z, 0 <= m < 2 ^ 53 -> 53 <= e <= 1074 ->
                   10000 <= randomAmount64 m e < 110000)
  /\ (forall v : Z, 10000 <= v < 110000 ->
        exists m : Z, 0 <= m < 2 ^ 53 /\ randomAmount64 m 53 = v).
Proof.
  split.
  - intros m e Hm He. apply randomAmount64_bounds; lia.
  - intros v Hv.
    destruct (randomAmount64_attained (v - 10000) ltac:(lia)) as [Hm Heq].
    eexists. split; [exact Hm|]. rewrite Heq. lia.
Qed.

Example randomAmount64_largest_draw :
  randomAmount64 (2 ^ 53 - 1) 53 = 109999.
Proof. reflexivity. Qed.

Example randomAmount64_zero : randomAmount64 0 53 = 10000.
Proof. reflexivity. Qed.

Lemma unitDraw_value (random : draw) :
  unitDraw random ->
  (0 <= drawValue random)%Q /\ (drawValue random < 1)%Q.
Proof.
  intros [Hm He]. unfold drawValue, Qle, Qlt. simpl.
  assert (H53 : 2 ^ 53 <= 2 ^ exponent random)
    by (apply Z.pow_le_mono_r; lia).
  rewrite Z2Pos.id by lia. lia.
Qed.

Lemma randomAmount_stored (random : draw) (lead : Lead.t) (st : State) :
  opportunities (handleConvertToOpportunity random lead st)
  = opportunities st
    ++ [Opportunity.mk (Z.of_nat (length (opportunities st)) + 1)
                       (Lead.name lead) (js "Prospecting")
                       (Some (randomAmount random))
                       (Lead.company lead) (Lead.id lead)].
Proof. reflexivity. Qed.

(** C9. For every draw r of [0, 1), a binary64 number as Math.random()
    returns it, the amount floor(r × 100000) + 10000, computed in
    binary64 as the code computes it and stored in the new opportunity,
    is an integer of the range [10000, 110000), and every integer of
    that range is the amount of some such draw. *)
Theorem randomAmount_range :
  (forall random : draw,
     unitDraw random ->
     ((0 <= drawValue random)%Q /\ (drawValue random < 1)%Q)
     /\ 10000 <= randomAmount random < 110000)
  /\ (forall v : Z,
        10000 <= v < 110000 ->
        exists random : draw, unitDraw random /\ randomAmount random = v)
  /\ (forall (random : draw) (lead : Lead.t) (st : State),
        exists o : Opportunity.t,
          opportunities (handleConvertToOpportunity random lead st)
          = opportunities st ++ [o]
          /\ Opportunity.amount o = Some (randomAmount random)).
Proof.
  split; [|split].
  - intros random Hu. split; [apply unitDraw_value; exact Hu|].
    destruct Hu as [Hm He]. unfold randomAmount.
    apply randomAmount64_bounds; lia.
  - intros v Hv.
    destruct (randomAmount64_attained (v - 10000) ltac:(lia)) as [Hm Heq].
    exists (mkDraw ((2 * (v - 10000) + 1) * 2 ^ 52 / 100000 + 1) 53).
    split.
    + split; [exact Hm | simpl; lia].
    + unfold randomAmount. cbn [significand exponent]. rewrite Heq. lia.
  - intros random lead st. eexists.
    split; [apply randomAmount_stored | reflexivity].
Qed.

Lemma randomAmount_range_witness :
  unitDraw drawLargest
  /\ 10000 <= randomAmount drawLargest < 110000.
Proof.
  assert (H : unitDraw drawLargest) by (unfold unitDraw; simpl; lia).
  split; [exact H|].
  apply (proj2 (proj1 randomAmount_range drawLargest H)).
Defined.

Example randomAmount_largest : randomAmount drawLargest = 109999.
Proof. reflexivity. Qed.

Example randomAmount_half : randomAmount drawHalf = 60000.
Proof. reflexivity. Qed.

(** The binary64 number nearest to 0.99996: the exact product is below
    99996, the rounded one is 99996. *)
Example randomAmount_rounds_up :
  randomAmount (mkDraw 9006838966770802 53) = 109996
  /\ Math_floor (drawValue (mkDraw 9006838966770802 53) * 100000) = 99995.
Proof. split; reflexivity. Qed.

End AmountProperties.

(** ** Strings and sorting *)

Section StringFacts.

Lemma strEq_spec (s t : jsstring) : strEq s t = true <-> s = t.
Proof.
  revert t. induction s as [|x s IH]; intros [|y t]; simpl;
    try (split; [discriminate | discriminate]); [tauto|].
  rewrite andb_true_iff, N.eqb_eq, IH. split.
  - intros [-> ->]. reflexivity.
  - intros H. injection H as -> ->. split; reflexivity.
Qed.

Lemma strEq_refl (s : jsstring) : strEq s s = true.
Proof. apply strEq_spec. reflexivity. Qed.




Lemma strLt_asym (s t : jsstring) : strLt s t = true -> strLt t s = false.
Proof.
  revert t. induction s as [|x s IH]; intros [|y t]; simpl; try congruence.
  destruct (N.ltb_spec x y) as [Hxy|Hxy].
  - intros _. destruct (N.ltb_spec y x); [lia|].
    destruct (N.eqb_spec y x); [lia | reflexivity].
  - destruct (N.eqb_spec x y) as [->|Hne]; [|discriminate].
    intros H. rewrite N.ltb_irrefl, N.eqb_refl. apply IH. exact H.
Qed.

End StringFacts.

Section SortFacts.

Context {A : Type} (cmp : A -> A -> Z).

Lemma insertSorted_perm (x : A) (l : list A) :
  Permutation (insertSorted cmp x l) (x :: l).
Proof.
  induction l as [|y l IH]; simpl; [reflexivity|].
  destruct (0 <? cmp x y); [|reflexivity].
  rewrite IH. apply perm_swap.
Qed.

Lemma sort_perm (l : list A) : Permutation (sort cmp l) l.
Proof.
  induction l as [|x l IH]; simpl; [reflexivity|].
  rewrite insertSorted_perm, IH. reflexivity.
Qed.

Lemma sort_In (l : list A) (x : A) : In x (sort cmp l) <-> In x l.
Proof.
  split; apply Permutation_in; [|symmetry]; apply sort_perm.
Qed.

(** The comparator never puts both of two elements after the other. *)
Hypothesis cmp_asym : forall x y, 0 < cmp x y -> cmp y x <= 0.

Lemma insertSorted_ordered (x : A) (l : list A) :
  ordered cmp l -> ordered cmp (insertSorted cmp x l).
Proof.
  induction 1 as [|y|y z l Hyz Hl IH]; simpl.
  - constructor.
  - destruct (Z.ltb_spec 0 (cmp x y)); constructor;
      auto using ordered_one; lia.
  - destruct (Z.ltb_spec 0 (cmp x y)) as [Hxy|Hxy].
    + simpl in IH. destruct (Z.ltb_spec 0 (cmp x z)).
      * constructor; assumption.
      * constructor; [auto | exact IH].
    + constructor; [lia|]. constructor; assumption.
Qed.

Lemma sort_ordered (l : list A) : ordered cmp (sort cmp l).
Proof.
  induction l as [|x l IH]; simpl; [constructor|].
  apply insertSorted_ordered. exact IH.
Qed.

Lemma sort_of_ordered (l : list A) : ordered cmp l -> sort cmp l = l.
Proof.
  induction 1 as [|y|x y l Hxy Hl IH]; try reflexivity.
  change (sort cmp (x :: y :: l)) with (insertSorted cmp x (sort cmp (y :: l))).
  rewrite IH. simpl. destruct (Z.ltb_spec 0 (cmp x y)); [lia | reflexivity].
Qed.

Lemma sort_idempotent (l : list A) : sort cmp (sort cmp l) = sort cmp l.
Proof. apply sort_of_ordered, sort_ordered. Qed.

End SortFacts.

(** ** The leads view: filter and sort *)

Section FilterProperties.

Import LeadsList.

Variable toLowerCase : jsstring -> jsstring.

Lemma LeadStatus_eqb_spec (a b : LeadStatus) :
  LeadStatus_eqb a b = true <-> a = b.
Proof. destruct a, b; simpl; split; congruence. Qed.

Lemma StatusFilter_eqb_spec (a b : StatusFilter) :
  StatusFilter_eqb a b = true <-> a = b.
Proof.
  destruct a as [|x], b as [|y]; simpl; try (split; congruence).
  rewrite LeadStatus_eqb_spec. split; congruence.
Qed.

Lemma matchesStatus_spec (f : StatusFilter) (lead : Lead.t) :
  matchesStatus f lead = true <-> f = All \/ f = Only (Lead.status lead).
Proof.
  unfold matchesStatus.
  rewrite orb_true_iff, !StatusFilter_eqb_spec. intuition congruence.
Qed.


Lemma filtered_In (leads : list Lead.t) (s : jsstring) (f : StatusFilter)
    (lead : Lead.t) :
  In lead (filtered toLowerCase leads s f)
  <-> In lead leads /\ keeps toLowerCase s f lead = true.
Proof. apply filter_In. Qed.

Lemma filter_all_kept {A : Type} (p : A -> bool) (l : list A) :
  (forall x, In x l -> p x = true) -> List.filter p l = l.
Proof.
  induction l as [|x l IH]; intros H; simpl; [reflexivity|].
  rewrite (H x (or_introl eq_refl)). f_equal. apply IH.
  intros y Hy. apply H. now right.
Qed.

Lemma filtered_idempotent (leads : list Lead.t) (s : jsstring)
    (f : StatusFilter) :
  filtered toLowerCase (filtered toLowerCase leads s f) s f
  = filtered toLowerCase leads s f.
Proof.
  apply filter_all_kept. intros x Hx. apply filtered_In in Hx. tauto.
Qed.

Lemma compareLeads_asym (k : SortKey) (o : SortOrder) (a b : Lead.t) :
  0 < compareLeads toLowerCase k o a b ->
  compareLeads toLowerCase k o b a <= 0.
Proof.
  unfold compareLeads.
  assert (Hz : forall x y : Z, (x <? y) = true -> (y <? x) = false)
    by (intros x y H; apply Z.ltb_lt in H; apply Z.ltb_ge; lia).
  destruct k;
    [ pose proof (Hz (Lead.score a) (Lead.score b)) as H1;
      pose proof (Hz (Lead.score b) (Lead.score a)) as H2;
      destruct (Lead.score a <? Lead.score b),
               (Lead.score b <? Lead.score a)
    | pose proof (strLt_asym (toLowerCase (Lead.name a))
                             (toLowerCase (Lead.name b))) as H1;
      pose proof (strLt_asym (toLowerCase (Lead.name b))
                             (toLowerCase (Lead.name a))) as H2;
      destruct (strLt (toLowerCase (Lead.name a)) (toLowerCase (Lead.name b))),
               (strLt (toLowerCase (Lead.name b)) (toLowerCase (Lead.name a)))
    | pose proof (strLt_asym (toLowerCase (Lead.company a))
                             (toLowerCase (Lead.company b))) as H1;
      pose proof (strLt_asym (toLowerCase (Lead.company b))
                             (toLowerCase (Lead.company a))) as H2;
      destruct (strLt (toLowerCase (Lead.company a))
                      (toLowerCase (Lead.company b))),
               (strLt (toLowerCase (Lead.company b))
                      (toLowerCase (Lead.company a))) ];
    destruct o; simpl; try lia;
    try (specialize (H1 eq_refl); discriminate H1).
Qed.

Lemma filteredAndSortedLeads_perm (leads : list Lead.t) (st : ViewState) :
  Permutation (filteredAndSortedLeads toLowerCase leads st)
              (filtered toLowerCase leads (searchTerm st) (statusFilter st)).
Proof. apply sort_perm. Qed.

Lemma filteredAndSortedLeads_idempotent (leads : list Lead.t) (st : ViewState) :
  filteredAndSortedLeads toLowerCase
    (filteredAndSortedLeads toLowerCase leads st) st
  = filteredAndSortedLeads toLowerCase leads st.
Proof.
  unfold filteredAndSortedLeads at 1.
  replace (filtered toLowerCase (filteredAndSortedLeads toLowerCase leads st)
                    (searchTerm st) (statusFilter st))
    with (filteredAndSortedLeads toLowerCase leads st).
  - apply sort_idempotent. intros x y. apply compareLeads_asym.
  - symmetry. apply filter_all_kept. intros x Hx.
    apply sort_In, filtered_In in Hx. tauto.
Qed.

(** C8. Filtering is idempotent: for every search text, status filter and
    lead collection, filtering the filtered leads again gives the same
    sequence; the same holds of the whole filter-and-sort step. *)
Theorem filtering_idempotent (leads : list Lead.t) (st : ViewState) :
  filtered toLowerCase
    (filtered toLowerCase leads (searchTerm st) (statusFilter st))
    (searchTerm st) (statusFilter st)
  = filtered toLowerCase leads (searchTerm st) (statusFilter st)
  /\ filteredAndSortedLeads toLowerCase
       (filteredAndSortedLeads toLowerCase leads st) st
     = filteredAndSortedLeads toLowerCase leads st.
Proof.
  split; [apply filtered_idempotent | apply filteredAndSortedLeads_idempotent].
Qed.

(** The lower-casing of the empty string is the empty string. *)
Hypothesis toLowerCase_empty : toLowerCase [] = [].



End FilterProperties.


Example filteredAndSortedLeads_acme :
  LeadsList.filteredAndSortedLeads toLowerCaseAscii sampleLeads
    (LeadsList.setSearchTerm (js "ACME") LeadsList.initial)
  = [leadAcme; leadCira].
Proof. reflexivity. Qed.

Example filteredAndSortedLeads_by_name_asc :
  LeadsList.filteredAndSortedLeads toLowerCaseAscii sampleLeads
    (LeadsList.setSortOrder LeadsList.asc
       (LeadsList.setSortBy LeadsList.name LeadsList.initial))
  = [leadAcme; leadBolt; leadCira].
Proof. reflexivity. Qed.

Example filteredAndSortedLeads_contacted :
  LeadsList.filteredAndSortedLeads toLowerCaseAscii sampleLeads
    (LeadsList.setStatusFilter (LeadsList.Only Contacted) LeadsList.initial)
  = [leadBolt].
Proof. reflexivity. Qed.

(** ** The leads view: pagination *)

Section PaginationProperties.

Import LeadsList.

Lemma slice_forward {A : Type} (a : list A) (start final : Z) :
  0 <= start <= final ->
  slice a start final
  = firstn (Z.to_nat (final - start)) (skipn (Z.to_nat start) a).
Proof.
  intros H. unfold slice.
  destruct (Z.ltb_spec start 0) as [?|_]; [lia|].
  destruct (Z.ltb_spec final 0) as [?|_]; [lia|].
  destruct (Z_le_gt_dec (Z.of_nat (length a)) start) as [Hge|Hlt].
  - rewrite (skipn_all2 (n := Z.to_nat start)) by lia.
    rewrite skipn_all2 by lia. rewrite !firstn_nil. reflexivity.
  - rewrite (Z.min_l start) by lia.
    destruct (Z_le_gt_dec final (Z.of_nat (length a))) as [Hf|Hf].
    + rewrite (Z.min_l final) by lia. rewrite Z.max_l by lia. reflexivity.
    + rewrite (Z.min_r final) by lia. rewrite Z.max_l by lia.
      rewrite (firstn_all2 (n := Z.to_nat (final - start)))
        by (rewrite length_skipn; lia).
      apply firstn_all2. rewrite length_skipn. lia.
Qed.

Lemma pageOf_chunk (sorted : list Lead.t) (j : nat) (p : Z) :
  0 < p ->
  pageOf sorted (Z.of_nat (S j)) p
  = firstn (Z.to_nat p) (skipn (j * Z.to_nat p) sorted).
Proof.
  intros Hp. unfold pageOf, endIndex, startIndex.
  rewrite slice_forward by nia.
  rewrite Z2Nat.inj_mul by lia.
  replace (Z.to_nat (Z.of_nat (S j) - 1)) with j by lia.
  f_equal. f_equal. lia.
Qed.

Lemma chunks_concat {A : Type} (p n : nat) (l : list A) :
  (length l <= n * p)%nat ->
  concat (map (fun j => firstn p (skipn (j * p) l)) (seq 0 n)) = l.
Proof.
  revert l. induction n as [|n IH]; intros l Hlen.
  - destruct l; [reflexivity | simpl in Hlen; lia].
  - rewrite <- cons_seq, <- seq_shift. simpl. rewrite map_map.
    transitivity (firstn p l ++ skipn p l); [|apply firstn_skipn].
    f_equal.
    etransitivity; [|apply (IH (skipn p l)); rewrite length_skipn; lia].
    f_equal. apply map_ext. intros j.
    rewrite skipn_skipn. f_equal. f_equal. lia.
Qed.

Lemma totalPagesOf_ceil (n : nat) (p : Z) :
  0 < p -> totalPagesOf n p = - ((- Z.of_nat n) / p).
Proof.
  intros Hp. unfold totalPagesOf, Math_ceil, Qceiling.
  destruct p as [|p|p]; try lia.
  unfold Qfloor, Qdiv, Qinv, Qmult, Qopp, inject_Z. simpl.
  rewrite Z.mul_1_r. reflexivity.
Qed.

Lemma totalPagesOf_covers (n : nat) (p : Z) :
  0 < p ->
  0 <= totalPagesOf n p /\ Z.of_nat n <= totalPagesOf n p * p.
Proof.
  intros Hp. rewrite totalPagesOf_ceil by exact Hp.
  pose proof (Z.div_mod (- Z.of_nat n) p ltac:(lia)) as Hdm.
  pose proof (Z.mod_pos_bound (- Z.of_nat n) p Hp) as Hm.
  split; nia.
Qed.

Lemma pages_concat (sorted : list Lead.t) (p : Z) :
  0 < p ->
  concat (map (fun page => pageOf sorted page p)
              (pageNumbers (totalPagesOf (length sorted) p)))
  = sorted.
Proof.
  intros Hp. unfold pageNumbers.
  destruct (totalPagesOf_covers (length sorted) p Hp) as [Hn Hcov].
  rewrite <- seq_shift, !map_map.
  rewrite (map_ext _ (fun j => firstn (Z.to_nat p)
                                 (skipn (j * Z.to_nat p) sorted)))
    by (intros j; apply pageOf_chunk; exact Hp).
  apply chunks_concat. nia.
Qed.

(** C4. For every page size p > 0, so for 5, 10, 20 and 50, the slices
    [(page-1)×p, page×p) of pages 1 to ceil(length/p), concatenated in
    order, are the filtered and sorted sequence itself: no lead is
    duplicated or left out.  This holds of any sequence and of the pages
    the view shows. *)
Theorem pagination_reconstructs (toLowerCase : jsstring -> jsstring)
    (leads : list Lead.t) (st : ViewState) :
  0 < pageSize st ->
  concat (map (fun page =>
                 paginatedLeads toLowerCase leads (setCurrentPage page st))
              (pageNumbers (totalPages toLowerCase leads st)))
  = filteredAndSortedLeads toLowerCase leads st
  /\ (forall sorted : list Lead.t,
        concat (map (fun page => pageOf sorted page (pageSize st))
                    (pageNumbers (totalPagesOf (length sorted) (pageSize st))))
        = sorted).
Proof.
  intros Hp. split.
  - apply (pages_concat (filteredAndSortedLeads toLowerCase leads st)
                        (pageSize st) Hp).
  - intros sorted. apply pages_concat. exact Hp.
Qed.

End PaginationProperties.

Lemma pagination_reconstructs_witness :
  0 < LeadsList.pageSize LeadsList.initial
  /\ concat (map (fun page =>
                    LeadsList.paginatedLeads toLowerCaseAscii sampleLeads
                      (LeadsList.setCurrentPage page LeadsList.initial))
                 (pageNumbers
                    (LeadsList.totalPages toLowerCaseAscii sampleLeads
                                          LeadsList.initial)))
     = LeadsList.filteredAndSortedLeads toLowerCaseAscii sampleLeads
                                        LeadsList.initial.
Proof.
  assert (H : 0 < LeadsList.pageSize LeadsList.initial) by reflexivity.
  split; [exact H|].
  apply (pagination_reconstructs toLowerCaseAscii sampleLeads
                                 LeadsList.initial H).
Defined.

(** Twelve leads with page size 10: two pages, of ten and of two. *)
Example twelve_leads_two_pages :
  let twelve :=
    map (fun i => Lead.mk (Z.of_nat i) (js "n") (js "c") (js "e") (js "s")
                          (100 - Z.of_nat i) New)
        (seq 1 12) in
  LeadsList.totalPagesOf (length twelve) 10 = 2
  /\ map Lead.id (LeadsList.pageOf twelve 1 10) = [1; 2; 3; 4; 5; 6; 7; 8; 9; 10]
  /\ map Lead.id (LeadsList.pageOf twelve 2 10) = [11; 12].
Proof. repeat split. Qed.

(** ** The leads view: stored preferences and the page index *)

Section PreferenceProperties.

Import LeadsList.

Lemma whenSaved_keeps {B : Type} (proj : ViewState -> B)
    (saved : option jsstring) (ok : jsstring -> bool)
    (apply : jsstring -> ViewState -> ViewState) (st : ViewState) :
  (forall s st', proj (apply s st') = proj st') ->
  proj (whenSaved saved ok apply st) = proj st.
Proof.
  intros H. unfold whenSaved. destruct saved as [s|]; [|reflexivity].
  destruct (truthy s && ok s); [apply H | reflexivity].
Qed.

Ltac keeps_side :=
  intros ? ?; cbv beta;
  repeat match goal with
         | |- context [match ?x with _ => _ end] => destruct x
         end;
  reflexivity.

Ltac skip_other_fields proj :=
  repeat (rewrite (whenSaved_keeps proj) by keeps_side).

(** What the initializer makes of each stored value. *)
Lemma loadSavedFilters_searchTerm (store : Storage) :
  searchTerm (loadSavedFilters store)
  = match store !! "leads-search" with
    | Some s => s
    | None => []
    end.
Proof.
  unfold loadSavedFilters, getItem. skip_other_fields searchTerm.
  unfold whenSaved. destruct (store !! "leads-search") as [[|c s]|]; reflexivity.
Qed.

Lemma loadSavedFilters_statusFilter (store : Storage) :
  statusFilter (loadSavedFilters store)
  = match store !! "leads-status-filter" with
    | Some s =>
        if truthy s
           && arrayIncludes [js "New"; js "Contacted"; js "Qualified"; js "All"] s
        then match statusFilterOfString s with
             | Some f => f
             | None => All
             end
        else All
    | None => All
    end.
Proof.
  unfold loadSavedFilters, getItem. skip_other_fields statusFilter.
  unfold whenSaved at 1.
  destruct (store !! "leads-status-filter") as [s|].
  - destruct (truthy s && arrayIncludes _ s);
      [destruct (statusFilterOfString s)|];
      skip_other_fields statusFilter; reflexivity.
  - skip_other_fields statusFilter. reflexivity.
Qed.

Lemma loadSavedFilters_sortBy (store : Storage) :
  sortBy (loadSavedFilters store)
  = match store !! "leads-sort-by" with
    | Some s =>
        if truthy s && arrayIncludes [js "score"; js "name"; js "company"] s
        then match sortKeyOfString s with
             | Some k => k
             | None => score
             end
        else score
    | None => score
    end.
Proof.
  unfold loadSavedFilters, getItem. skip_other_fields sortBy.
  unfold whenSaved at 1.
  destruct (store !! "leads-sort-by") as [s|].
  - destruct (truthy s && arrayIncludes _ s);
      [destruct (sortKeyOfString s)|];
      skip_other_fields sortBy; reflexivity.
  - skip_other_fields sortBy. reflexivity.
Qed.

Lemma loadSavedFilters_sortOrder (store : Storage) :
  sortOrder (loadSavedFilters store)
  = match store !! "leads-sort-order" with
    | Some s =>
        if truthy s && arrayIncludes [js "asc"; js "desc"] s
        then match sortOrderOfString s with
             | Some o => o
             | None => desc
             end
        else desc
    | None => desc
    end.
Proof.
  unfold loadSavedFilters, getItem. skip_other_fields sortOrder.
  unfold whenSaved at 1.
  destruct (store !! "leads-sort-order") as [s|].
  - destruct (truthy s && arrayIncludes _ s);
      [destruct (sortOrderOfString s)|];
      skip_other_fields sortOrder; reflexivity.
  - skip_other_fields sortOrder. reflexivity.
Qed.

Lemma loadSavedFilters_pageSize (store : Storage) :
  pageSize (loadSavedFilters store)
  = match store !! "leads-page-size" with
    | Some s =>
        if truthy s && arrayIncludes [js "5"; js "10"; js "20"; js "50"] s
        then match parseInt s with
             | Some n => n
             | None => 10
             end
        else 10
    | None => 10
    end.
Proof.
  unfold loadSavedFilters, getItem.
  unfold whenSaved at 1.
  destruct (store !! "leads-page-size") as [s|].
  - destruct (truthy s && arrayIncludes _ s);
      [destruct (parseInt s)|];
      skip_other_fields pageSize; reflexivity.
  - skip_other_fields pageSize. reflexivity.
Qed.

Lemma loadSavedFilters_currentPage (store : Storage) :
  currentPage (loadSavedFilters store) = 1.
Proof.
  unfold loadSavedFilters. skip_other_fields currentPage. reflexivity.
Qed.

Lemma arrayIncludes_spec (a : list jsstring) (s : jsstring) :
  arrayIncludes a s = true <-> In s a.
Proof.
  unfold arrayIncludes. rewrite existsb_exists. split.
  - intros [x [Hin Heq]]. apply strEq_spec in Heq. subst x. exact Hin.
  - intros Hin. exists s. split; [exact Hin | apply strEq_refl].
Qed.

Lemma arrayIncludes_outside (a : list jsstring) (s : jsstring) :
  ~ In s a -> arrayIncludes a s = false.
Proof.
  intros H. destruct (arrayIncludes a s) eqn:E; [|reflexivity].
  apply arrayIncludes_spec in E. contradiction.
Qed.

(** What [saveFilters] leaves under each key. *)
Lemma saveFilters_search (search : jsstring) (status : StatusFilter)
    (sort order : jsstring) (size : option Z) (store : Storage) :
  saveFilters search status sort order size store !! "leads-search"
  = Some search.
Proof.
  unfold saveFilters, setItem.
  destruct size as [n|]; [destruct (n =? 0)|]; simplify_map_eq; reflexivity.
Qed.

Lemma saveFilters_status (search : jsstring) (status : StatusFilter)
    (sort order : jsstring) (size : option Z) (store : Storage) :
  saveFilters search status sort order size store !! "leads-status-filter"
  = Some (statusFilterToString status).
Proof.
  unfold saveFilters, setItem.
  destruct size as [n|]; [destruct (n =? 0)|]; simplify_map_eq; reflexivity.
Qed.

Lemma saveFilters_sort (search : jsstring) (status : StatusFilter)
    (sort order : jsstring) (size : option Z) (store : Storage) :
  saveFilters search status sort order size store !! "leads-sort-by"
  = Some sort.
Proof.
  unfold saveFilters, setItem.
  destruct size as [n|]; [destruct (n =? 0)|]; simplify_map_eq; reflexivity.
Qed.

Lemma saveFilters_order (search : jsstring) (status : StatusFilter)
    (sort order : jsstring) (size : option Z) (store : Storage) :
  saveFilters search status sort order size store !! "leads-sort-order"
  = Some order.
Proof.
  unfold saveFilters, setItem.
  destruct size as [n|]; [destruct (n =? 0)|]; simplify_map_eq; reflexivity.
Qed.

Lemma saveFilters_pageSize (search : jsstring) (status : StatusFilter)
    (sort order : jsstring) (size : option Z) (store : Storage) :
  saveFilters search status sort order size store !! "leads-page-size"
  = match size with
    | Some n => if n =? 0 then store !! "leads-page-size"
                else Some (toString n)
    | None => store !! "leads-page-size"
    end.
Proof.
  unfold saveFilters, setItem.
  destruct size as [n|]; [destruct (n =? 0)|]; simplify_map_eq; reflexivity.
Qed.

(** Each preference comes back from the store as its handler wrote it. *)
Lemma searchTerm_round_trip (value : jsstring) (st : ViewState)
    (store : Storage) :
  searchTerm (loadSavedFilters (snd (handleSearchChange value st store)))
  = value.
Proof.
  rewrite loadSavedFilters_searchTerm.
  unfold handleSearchChange. cbn [snd fst].
  rewrite saveFilters_search. reflexivity.
Qed.

Lemma statusFilter_round_trip (value : StatusFilter) (st : ViewState)
    (store : Storage) :
  statusFilter (loadSavedFilters (snd (handleStatusFilterChange value st store)))
  = value.
Proof.
  rewrite loadSavedFilters_statusFilter.
  unfold handleStatusFilterChange. cbn [snd fst].
  rewrite saveFilters_status. destruct value as [|[]]; reflexivity.
Qed.

Lemma sort_round_trip (field : SortKey) (st : ViewState) (store : Storage) :
  sortBy (loadSavedFilters (snd (handleSortChange field st store)))
  = sortBy (fst (handleSortChange field st store))
  /\ sortOrder (loadSavedFilters (snd (handleSortChange field st store)))
     = sortOrder (fst (handleSortChange field st store)).
Proof.
  rewrite loadSavedFilters_sortBy, loadSavedFilters_sortOrder.
  unfold handleSortChange. cbn [snd fst].
  rewrite saveFilters_sort, saveFilters_order.
  split; [destruct field; reflexivity|].
  destruct (SortKey_eqb (sortBy st) field && SortOrder_eqb (sortOrder st) desc);
    reflexivity.
Qed.

Lemma pageSize_round_trip (value : Z) (st : ViewState) (store : Storage) :
  In value pageSizeOptions ->
  pageSize (loadSavedFilters (snd (handlePageSizeChange value st store)))
  = value.
Proof.
  intros Hin. rewrite loadSavedFilters_pageSize.
  unfold handlePageSizeChange. cbn [snd fst].
  rewrite saveFilters_pageSize.
  simpl in Hin. destruct Hin as [<-|[<-|[<-|[<-|[]]]]]; reflexivity.
Qed.

(** C7. Each preference written through its change handler comes back
    from re-initialization as the identical value: the search text, the
    status filter, the sort key with the sort direction the handler chose,
    and a page size among 5, 10, 20 and 50.  A stored string outside the
    valid set of its preference, like an absent one, gives the default:
    'All', 'score', 'desc', 10, and '' for an absent search text. *)
Theorem preferences_round_trip :
  (forall (value : jsstring) (st : ViewState) (store : Storage),
     searchTerm (loadSavedFilters (snd (handleSearchChange value st store)))
     = value)
  /\ (forall (value : StatusFilter) (st : ViewState) (store : Storage),
        statusFilter
          (loadSavedFilters (snd (handleStatusFilterChange value st store)))
        = value)
  /\ (forall (field : SortKey) (st : ViewState) (store : Storage),
        sortBy (loadSavedFilters (snd (handleSortChange field st store)))
        = field
        /\ sortOrder (loadSavedFilters (snd (handleSortChange field st store)))
           = sortOrder (fst (handleSortChange field st store)))
  /\ (forall (value : Z) (st : ViewState) (store : Storage),
        In value pageSizeOptions ->
        pageSize (loadSavedFilters (snd (handlePageSizeChange value st store)))
        = value)
  /\ (forall (store : Storage) (s : jsstring),
        store !! "leads-status-filter" = Some s ->
        ~ In s [js "New"; js "Contacted"; js "Qualified"; js "All"] ->
        statusFilter (loadSavedFilters store) = All)
  /\ (forall (store : Storage) (s : jsstring),
        store !! "leads-sort-by" = Some s ->
        ~ In s [js "score"; js "name"; js "company"] ->
        sortBy (loadSavedFilters store) = score)
  /\ (forall (store : Storage) (s : jsstring),
        store !! "leads-sort-order" = Some s ->
        ~ In s [js "asc"; js "desc"] ->
        sortOrder (loadSavedFilters store) = desc)
  /\ (forall (store : Storage) (s : jsstring),
        store !! "leads-page-size" = Some s ->
        ~ In s [js "5"; js "10"; js "20"; js "50"] ->
        pageSize (loadSavedFilters store) = 10)
  /\ (forall store : Storage,
        store !! "leads-search" = None ->
        searchTerm (loadSavedFilters store) = [])
  /\ loadSavedFilters ∅ = initial.
Proof.
  repeat apply conj.
  - apply searchTerm_round_trip.
  - apply statusFilter_round_trip.
  - intros field st store.
    destruct (sort_round_trip field st store) as [Hk Ho].
    split; [exact Hk | exact Ho].
  - apply pageSize_round_trip.
  - intros store s Hs Hout. rewrite loadSavedFilters_statusFilter, Hs.
    rewrite (arrayIncludes_outside _ _ Hout), andb_false_r. reflexivity.
  - intros store s Hs Hout. rewrite loadSavedFilters_sortBy, Hs.
    rewrite (arrayIncludes_outside _ _ Hout), andb_false_r. reflexivity.
  - intros store s Hs Hout. rewrite loadSavedFilters_sortOrder, Hs.
    rewrite (arrayIncludes_outside _ _ Hout), andb_false_r. reflexivity.
  - intros store s Hs Hout. rewrite loadSavedFilters_pageSize, Hs.
    rewrite (arrayIncludes_outside _ _ Hout), andb_false_r. reflexivity.
  - intros store Hs. rewrite loadSavedFilters_searchTerm, Hs. reflexivity.
  - reflexivity.
Qed.

Lemma preferences_round_trip_witness :
  In 20 pageSizeOptions
  /\ pageSize (loadSavedFilters (snd (handlePageSizeChange 20 initial ∅))) = 20.
Proof.
  assert (H : In 20 pageSizeOptions) by (simpl; auto).
  split; [exact H|].
  apply (proj1 (proj2 (proj2 (proj2 preferences_round_trip))) 20 initial ∅ H).
Defined.

Example stored_preferences_reload :
  loadSavedFilters
    (snd (handlePageSizeChange 20
            (fst (handleSortChange name initial ∅))
            (snd (handleSortChange name initial ∅))))
  = mkView [] All name desc 1 20 false.
Proof. reflexivity. Qed.

Example stored_junk_gives_defaults :
  loadSavedFilters
    (<["leads-page-size" := js "7"]>
       (<["leads-sort-order" := js "up"]>
          (<["leads-status-filter" := js "Lost"]> ∅)))
  = initial.
Proof. reflexivity. Qed.

(** The page index after each change of a filter. *)
Lemma handleSortChange_changes_filters (field : SortKey) (st : ViewState)
    (store : Storage) :
  filtersChanged st (fst (handleSortChange field st store)) = true.
Proof.
  unfold filtersChanged, handleSortChange. cbn [fst].
  destruct st as [s f k o c p l]. simpl.
  destruct k, field, o; simpl; rewrite ?andb_false_r; reflexivity.
Qed.

Lemma filter_changes_reset_page (c : Change) (st : ViewState) (store : Storage) :
  match c with
  | SearchChange v => v <> searchTerm st
  | StatusFilterChange f => f <> statusFilter st
  | SortChange _ => True
  | PageSizeChange _ => True
  end ->
  currentPage (fst (change c (st, store))) = 1.
Proof.
  destruct c as [v|f|k|n]; intros Hc; unfold change.
  - unfold handleSearchChange, resetPageEffect, filtersChanged.
    cbn [searchTerm setSearchTerm].
    destruct (strEq (searchTerm st) v) eqn:E.
    + apply strEq_spec in E. congruence.
    + reflexivity.
  - unfold handleStatusFilterChange, resetPageEffect, filtersChanged.
    cbn [searchTerm statusFilter setStatusFilter].
    destruct (StatusFilter_eqb (statusFilter st) f) eqn:E.
    + apply StatusFilter_eqb_spec in E. congruence.
    + rewrite andb_false_r. reflexivity.
  - pose proof (handleSortChange_changes_filters k st store) as H.
    destruct (handleSortChange k st store) as [st' store'].
    unfold resetPageEffect. cbn [fst] in *. rewrite H. reflexivity.
  - unfold handlePageSizeChange, resetPageEffect.
    destruct (filtersChanged _ _); reflexivity.
Qed.

(** C10. Changing the page size, to 5, 10, 20, 50 or any other number,
    sets the page index to 1 in the handler itself, and it is 1 after the
    render the change causes. *)
Theorem handlePageSizeChange_resets_page (value : Z) (st : ViewState)
    (store : Storage) :
  currentPage (fst (handlePageSizeChange value st store)) = 1
  /\ pageSize (fst (handlePageSizeChange value st store)) = value
  /\ currentPage (fst (change (PageSizeChange value) (st, store))) = 1.
Proof.
  split; [reflexivity | split; [reflexivity|]].
  apply (filter_changes_reset_page (PageSizeChange value)). exact I.
Qed.

(** The store and the view agree on the five preferences. *)
Lemma change_keeps_agreement (c : Change) (st : ViewState) (store : Storage) :
  match c with
  | PageSizeChange v => In v pageSizeOptions
  | _ => True
  end ->
  pageSize (loadSavedFilters store) = pageSize st ->
  searchTerm (loadSavedFilters (snd (change c (st, store))))
  = searchTerm (fst (change c (st, store)))
  /\ statusFilter (loadSavedFilters (snd (change c (st, store))))
     = statusFilter (fst (change c (st, store)))
  /\ sortBy (loadSavedFilters (snd (change c (st, store))))
     = sortBy (fst (change c (st, store)))
  /\ sortOrder (loadSavedFilters (snd (change c (st, store))))
     = sortOrder (fst (change c (st, store)))
  /\ pageSize (loadSavedFilters (snd (change c (st, store))))
     = pageSize (fst (change c (st, store))).
Proof.
  intros Hc Hp.
  assert (Hreset : forall a b, searchTerm (resetPageEffect a b) = searchTerm b
            /\ statusFilter (resetPageEffect a b) = statusFilter b
            /\ sortBy (resetPageEffect a b) = sortBy b
            /\ sortOrder (resetPageEffect a b) = sortOrder b
            /\ pageSize (resetPageEffect a b) = pageSize b).
  { intros a b. unfold resetPageEffect.
    destruct (filtersChanged a b); repeat split. }
  rewrite loadSavedFilters_pageSize in Hp.
  unfold change.
  destruct c as [v|f|k|n];
    [ unfold handleSearchChange | unfold handleStatusFilterChange
    | unfold handleSortChange | unfold handlePageSizeChange ];
    cbn [fst snd];
    match goal with
    | |- context [resetPageEffect ?a ?b] =>
        destruct (Hreset a b) as (-> & -> & -> & -> & ->)
    end;
    rewrite loadSavedFilters_searchTerm, loadSavedFilters_statusFilter,
      loadSavedFilters_sortBy, loadSavedFilters_sortOrder,
      loadSavedFilters_pageSize;
    rewrite saveFilters_search, saveFilters_status, saveFilters_sort,
      saveFilters_order, saveFilters_pageSize;
    cbn [searchTerm statusFilter sortBy sortOrder pageSize
         setSearchTerm setStatusFilter setSortBy setSortOrder setPageSize
         setCurrentPage].
  - repeat split; try exact Hp.
    + destruct (statusFilter st) as [|[]]; reflexivity.
    + destruct (sortBy st); reflexivity.
    + destruct (sortOrder st); reflexivity.
  - repeat split; try exact Hp.
    + destruct f as [|[]]; reflexivity.
    + destruct (sortBy st); reflexivity.
    + destruct (sortOrder st); reflexivity.
  - repeat split; try exact Hp.
    + destruct (statusFilter st) as [|[]]; reflexivity.
    + destruct k; reflexivity.
    + destruct (SortKey_eqb (sortBy st) k && SortOrder_eqb (sortOrder st) desc);
        reflexivity.
  - repeat split.
    + destruct (statusFilter st) as [|[]]; reflexivity.
    + destruct (sortBy st); reflexivity.
    + destruct (sortOrder st); reflexivity.
    + simpl in Hc. destruct Hc as [<-|[<-|[<-|[<-|[]]]]]; reflexivity.
Qed.

End PreferenceProperties.

(** ** The detail panel: the email check and Save *)

Section EmailProperties.

Import LeadDetailPanel.

Lemma matchPlus_spec (a : atom) (k : jsstring -> bool) (s : jsstring) :
  matchPlus a k s = true
  <-> exists u v, s = u ++ v /\ u <> [] /\ accepts a u /\ k v = true.
Proof.
  induction s as [|c s IH]; simpl.
  - split; [discriminate|].
    intros (u & v & Hs & Hu & _). destruct u; [contradiction | discriminate Hs].
  - rewrite andb_true_iff, orb_true_iff, IH. split.
    + intros [Hc [(u & v & -> & Hu & Ha & Hk) | Hk]].
      * exists (c :: u), v. repeat split; [discriminate | | exact Hk].
        constructor; assumption.
      * exists [c], s. repeat split; [discriminate | | exact Hk].
        constructor; [exact Hc | constructor].
    + intros (u & v & Hs & Hu & Ha & Hk).
      destruct u as [|c' u]; [contradiction|].
      injection Hs as <- ->. inversion Ha as [|? ? Hc Ha']; subst.
      split; [exact Hc|].
      destruct u as [|c'' u].
      * right. exact Hk.
      * left. exists (c'' :: u), v. repeat split; [discriminate | | ]; assumption.
Qed.

Lemma matchOne_spec (a : atom) (k : jsstring -> bool) (s : jsstring) :
  matchTerm (One a) k s = true
  <-> exists c v, s = c :: v /\ atomMatches a c = true /\ k v = true.
Proof.
  simpl. destruct s as [|c s].
  - split; [discriminate | intros (c & v & H & _); discriminate H].
  - rewrite andb_true_iff. split.
    + intros [Hc Hk]. exists c, s. auto.
    + intros (c' & v & H & Hc & Hk). injection H as -> ->. auto.
Qed.

Lemma atEnd_spec (s : jsstring) : atEnd s = true <-> s = [].
Proof. destruct s; simpl; split; congruence. Qed.

Lemma accepts_part (u : jsstring) :
  u <> [] /\ accepts (NotIn spaceOrAt) u <-> emailPart u.
Proof.
  unfold emailPart, accepts. rewrite !Forall_forall.
  split; intros [Hu H]; (split; [exact Hu|]); intros c Hc;
    specialize (H c Hc); simpl in *; unfold spaceOrAt in *.
  - apply negb_true_iff, orb_false_iff in H as [Hw Hat].
    split; [exact Hw|]. apply N.eqb_neq. exact Hat.
  - destruct H as [Hw Hat]. apply N.eqb_neq in Hat.
    rewrite Hw, Hat. reflexivity.
Qed.

(** The regular expression accepts exactly the strings of the shape. *)
Lemma validateEmail_spec (email : jsstring) :
  validateEmail email = true <-> emailShape email.
Proof.
  unfold validateEmail, test, emailRegex, emailShape.
  cbn [matchTerms]. change (matchTerm (OneOrMore ?a)) with (matchPlus a).
  rewrite matchPlus_spec. split.
  - intros (u & r1 & -> & Hu & Hau & H1).
    apply matchOne_spec in H1 as (c1 & r2 & -> & Hc1 & H2).
    apply N.eqb_eq in Hc1. subst c1.
    apply matchPlus_spec in H2 as (v & r3 & -> & Hv & Hav & H3).
    apply matchOne_spec in H3 as (c2 & r4 & -> & Hc2 & H4).
    apply N.eqb_eq in Hc2. subst c2.
    apply matchPlus_spec in H4 as (w & r5 & -> & Hw & Haw & H5).
    apply atEnd_spec in H5. subst r5. rewrite app_nil_r.
    exists u, v, w. split; [reflexivity|].
    repeat split; try assumption; apply accepts_part; auto.
  - intros (u & v & w & -> & Hu & Hv & Hw).
    apply accepts_part in Hu as [Hu Hau].
    apply accepts_part in Hv as [Hv Hav].
    apply accepts_part in Hw as [Hw Haw].
    exists u, ([64%N] ++ v ++ [46%N] ++ w).
    split; [reflexivity|]. split; [exact Hu|]. split; [exact Hau|].
    apply matchOne_spec. exists 64%N, (v ++ [46%N] ++ w).
    split; [reflexivity|]. split; [reflexivity|].
    apply matchPlus_spec. exists v, ([46%N] ++ w).
    split; [reflexivity|]. split; [exact Hv|]. split; [exact Hav|].
    apply matchOne_spec. exists 46%N, w.
    split; [reflexivity|]. split; [reflexivity|].
    apply matchPlus_spec. exists w, [].
    split; [symmetry; apply app_nil_r|]. split; [exact Hw|].
    split; [exact Haw | reflexivity].
Qed.

Lemma validateEmail_false (email : jsstring) :
  validateEmail email = false <-> ~ emailShape email.
Proof.
  rewrite <- validateEmail_spec. destruct (validateEmail email); split;
    congruence.
Qed.

Example validateEmail_plain : validateEmail (js "contact@acme.example") = true.
Proof. reflexivity. Qed.

Example validateEmail_dots : validateEmail (js "a.b@c.d.e") = true.
Proof. reflexivity. Qed.

Example validateEmail_no_at : validateEmail (js "not-an-email") = false.
Proof. reflexivity. Qed.

Example validateEmail_space : validateEmail (js "a b@c.de") = false.
Proof. reflexivity. Qed.

Example validateEmail_two_ats : validateEmail (js "a@b@c.de") = false.
Proof. reflexivity. Qed.

Example validateEmail_no_dot : validateEmail (js "a@bcde") = false.
Proof. reflexivity. Qed.

(** C5. Save is rejected exactly when the buffer's email is not of the
    shape part '@' part '.' part, the parts being non-empty and free of
    white space and '@'.  On rejection the field error is 'Please enter a
    valid email address', Update lead is not called and the panel keeps
    its mode and its buffer; an email of the shape is never answered with
    that error.  The email "not-an-email" is rejected. *)
Theorem handleSave_rejects_bad_email (random : Q) (st : PanelState) :
  (~ emailShape (Lead.email (editedLead st)) ->
     snd (handleSave random st) = None
     /\ errors (fst (handleSave random st)) = Some invalidEmailMessage
     /\ isEditing (fst (handleSave random st)) = isEditing st
     /\ editedLead (fst (handleSave random st)) = editedLead st
     /\ isSaving (fst (handleSave random st)) = isSaving st)
  /\ (emailShape (Lead.email (editedLead st)) ->
        errors (fst (handleSave random st)) <> Some invalidEmailMessage
        /\ (numLt random (1 # 10) = false ->
            snd (handleSave random st) = Some (editedLead st)
            /\ isEditing (fst (handleSave random st)) = false
            /\ errors (fst (handleSave random st)) = None))
  /\ (errors (fst (handleSave random st)) = Some invalidEmailMessage
      <-> ~ emailShape (Lead.email (editedLead st)))
  /\ invalidEmailMessage = js "Please enter a valid email address"
  /\ ~ emailShape (js "not-an-email").
Proof.
  assert (Hbad : ~ emailShape (Lead.email (editedLead st)) ->
                 handleSave random st
                 = (setErrors (Some invalidEmailMessage) st, None)).
  { intros H. apply validateEmail_false in H.
    unfold handleSave. rewrite H. reflexivity. }
  assert (Hgood : emailShape (Lead.email (editedLead st)) ->
                  errors (fst (handleSave random st))
                  <> Some invalidEmailMessage).
  { intros H. apply validateEmail_spec in H.
    unfold handleSave. rewrite H. cbn [negb].
    destruct (numLt random (1 # 10)); discriminate. }
  split; [|split; [|split; [|split]]].
  - intros H. rewrite (Hbad H). repeat split.
  - intros H. split; [exact (Hgood H)|].
    intros Hr. apply validateEmail_spec in H.
    unfold handleSave. rewrite H, Hr. repeat split.
  - split.
    + intros He Hshape. exact (Hgood Hshape He).
    + intros H. rewrite (Hbad H). reflexivity.
  - reflexivity.
  - apply validateEmail_false. reflexivity.
Qed.

Lemma handleSave_rejects_bad_email_witness :
  ~ emailShape (Lead.email (editedLead panelBadEmail))
  /\ snd (handleSave 0 panelBadEmail) = None
  /\ errors (fst (handleSave 0 panelBadEmail)) = Some invalidEmailMessage
  /\ isEditing (fst (handleSave 0 panelBadEmail)) = true.
Proof.
  assert (H : ~ emailShape (Lead.email (editedLead panelBadEmail))).
  { apply validateEmail_false. reflexivity. }
  split; [exact H|].
  destruct (proj1 (handleSave_rejects_bad_email 0 panelBadEmail) H)
    as (Hu & He & Hi & _).
  split; [exact Hu|]. split; [exact He|]. rewrite Hi. reflexivity.
Defined.

End EmailProperties.

(** ** Sessions of the console *)

Section AppSessionProperties.

Import App.

Lemma handleLeadUpdate_ids (R : Lead.t) (st : State) :
  map Lead.id (leads (handleLeadUpdate R st)) = map Lead.id (leads st).
Proof.
  rewrite setters_leads, map_map. apply map_ext. intros l.
  destruct (Z.eqb_spec (Lead.id l) (Lead.id R)) as [E|_]; congruence.
Qed.

Lemma appStep_ids (st : State) (a : AppAction) :
  map Lead.id (leads (appStep st a)) = map Lead.id (leads st).
Proof.
  destruct a as [l|l|r l| |t]; try reflexivity.
  - apply handleLeadUpdate_ids.
  - change (leads (appStep st (Convert r l)))
      with (leads (handleLeadUpdate (Lead.withStatus Qualified l) st)).
    apply handleLeadUpdate_ids.
Qed.

(** No session adds, deletes or reorders leads: the sequence of the lead
    ids stays as loaded, so the count stays and distinct ids stay
    distinct. *)
Theorem appRun_keeps_lead_ids (acts : list AppAction) (st : State) :
  map Lead.id (leads (appRun acts st)) = map Lead.id (leads st)
  /\ length (leads (appRun acts st)) = length (leads st)
  /\ (List.NoDup (map Lead.id (leads st)) ->
      List.NoDup (map Lead.id (leads (appRun acts st)))).
Proof.
  assert (H : map Lead.id (leads (appRun acts st)) = map Lead.id (leads st)).
  { revert st. induction acts as [|a acts IH]; intros st; [reflexivity|].
    simpl. unfold appRun in IH. rewrite IH. apply appStep_ids. }
  split; [exact H|]. split.
  - rewrite <- (length_map Lead.id), H. apply length_map.
  - rewrite H. auto.
Qed.

Lemma appStep_opportunities (st : State) (a : AppAction) :
  opportunities (appStep st a)
  = opportunities st
    ++ match a with
       | Convert random lead =>
           [Opportunity.mk (Z.of_nat (length (opportunities st)) + 1)
                           (Lead.name lead) (js "Prospecting")
                           (Some (randomAmount random))
                           (Lead.company lead) (Lead.id lead)]
       | _ => []
       end.
Proof.
  destruct a; simpl; rewrite ?app_nil_r; reflexivity.
Qed.

Lemma appRun_opportunities_length (acts : list AppAction) (st : State) :
  length (opportunities (appRun acts st))
  = (length (opportunities st) + conversions acts)%nat.
Proof.
  revert st. induction acts as [|a acts IH]; intros st.
  - unfold conversions. simpl. lia.
  - change (appRun (a :: acts) st) with (appRun acts (appStep st a)).
    rewrite IH, appStep_opportunities, length_app. unfold conversions.
    destruct a; simpl; lia.
Qed.

(** Opportunities are only ever appended: the opportunities a session
    starts with stay, in place and unchanged, at the head of the list,
    and the list grows by one for each conversion. *)
Theorem appRun_appends_opportunities (acts : list AppAction) (st : State) :
  exists added : list Opportunity.t,
    opportunities (appRun acts st) = opportunities st ++ added
    /\ length added = conversions acts.
Proof.
  revert st. induction acts as [|a acts IH]; intros st.
  - exists []. split; [symmetry; apply app_nil_r | reflexivity].
  - destruct (IH (appStep st a)) as (added & Hrun & Hlen).
    change (appRun (a :: acts) st) with (appRun acts (appStep st a)).
    rewrite Hrun, appStep_opportunities, <- app_assoc.
    eexists. split; [reflexivity|].
    rewrite length_app, Hlen. unfold conversions.
    destruct a; reflexivity.
Qed.

Lemma totalValue_snoc (ops : list Opportunity.t) (o : Opportunity.t) :
  OpportunitiesTable.totalValue (ops ++ [o])
  = OpportunitiesTable.totalValue ops + OpportunitiesTable.amountOrZero o.
Proof.
  unfold OpportunitiesTable.totalValue. rewrite fold_left_app. reflexivity.
Qed.

(** The invariant of the opportunity list: ids 1, 2, ..., n in order, each
    opportunity in stage 'Prospecting' with an amount of the range, and a
    total between 10000 n and 109999 n. *)
Lemma opportunities_invariant_step (st : State) (a : AppAction) :
  match a with
  | Convert random _ => unitDraw random
  | _ => True
  end ->
  map Opportunity.id (opportunities st)
  = map Z.of_nat (seq 1 (length (opportunities st))) ->
  Forall (fun o => Opportunity.stage o = js "Prospecting"
                   /\ exists v, Opportunity.amount o = Some v
                                /\ 10000 <= v < 110000)
         (opportunities st) ->
  10000 * Z.of_nat (length (opportunities st))
  <= OpportunitiesTable.totalValue (opportunities st)
  <= 109999 * Z.of_nat (length (opportunities st)) ->
  map Opportunity.id (opportunities (appStep st a))
  = map Z.of_nat (seq 1 (length (opportunities (appStep st a))))
  /\ Forall (fun o => Opportunity.stage o = js "Prospecting"
                      /\ exists v, Opportunity.amount o = Some v
                                   /\ 10000 <= v < 110000)
            (opportunities (appStep st a))
  /\ 10000 * Z.of_nat (length (opportunities (appStep st a)))
     <= OpportunitiesTable.totalValue (opportunities (appStep st a))
     <= 109999 * Z.of_nat (length (opportunities (appStep st a))).
Proof.
  intros Hr Hids Hall Htot. rewrite appStep_opportunities.
  destruct a as [l|l|r l| |t]; rewrite ?app_nil_r; auto.
  assert (Hamount : 10000 <= randomAmount r < 110000).
  { destruct Hr as [Hm He]. unfold randomAmount.
    apply randomAmount64_bounds; lia. }
  split; [|split].
  - rewrite length_app, map_app, Hids. simpl.
    rewrite Nat.add_1_r, seq_S, map_app. simpl. f_equal. f_equal. lia.
  - apply Forall_app. split; [exact Hall|].
    constructor; [|constructor]. split; [reflexivity|].
    exists (randomAmount r). simpl. split; [reflexivity | lia].
  - rewrite totalValue_snoc, length_app. simpl.
    unfold OpportunitiesTable.amountOrZero. simpl.
    destruct (Z.eqb_spec (randomAmount r) 0); lia.
Qed.

Lemma opportunity_ids_step (st : State) (a : AppAction) :
  map Opportunity.id (opportunities st)
  = map Z.of_nat (seq 1 (length (opportunities st))) ->
  map Opportunity.id (opportunities (appStep st a))
  = map Z.of_nat (seq 1 (length (opportunities (appStep st a)))).
Proof.
  intros Hids. rewrite appStep_opportunities.
  destruct a as [l|l|r l| |t]; rewrite ?app_nil_r; auto.
  rewrite length_app, map_app, Hids. simpl.
  rewrite Nat.add_1_r, seq_S, map_app. simpl. f_equal. f_equal. lia.
Qed.

Lemma opportunity_ids_run (acts : list AppAction) (st : State) :
  map Opportunity.id (opportunities st)
  = map Z.of_nat (seq 1 (length (opportunities st))) ->
  map Opportunity.id (opportunities (appRun acts st))
  = map Z.of_nat (seq 1 (length (opportunities (appRun acts st)))).
Proof.
  revert st. induction acts as [|a acts IH]; intros st H; [exact H|].
  apply (IH (appStep st a)), opportunity_ids_step, H.
Qed.

(** From a console without opportunities, whatever the session, the
    opportunity ids are 1, 2, ..., n in the order of the list, n being the
    number of conversions: no two opportunities share an id. *)
Theorem appRun_opportunity_ids (acts : list AppAction) (st : State) :
  opportunities st = [] ->
  length (opportunities (appRun acts st)) = conversions acts
  /\ map Opportunity.id (opportunities (appRun acts st))
     = map Z.of_nat (seq 1 (conversions acts))
  /\ List.NoDup (map Opportunity.id (opportunities (appRun acts st))).
Proof.
  intros Hnil.
  assert (Hn : length (opportunities (appRun acts st)) = conversions acts)
    by (rewrite appRun_opportunities_length, Hnil; reflexivity).
  assert (Hids := opportunity_ids_run acts st).
  rewrite Hnil, Hn in Hids. specialize (Hids eq_refl).
  split; [exact Hn|]. split; [exact Hids|].
  rewrite Hids. apply NoDup_ListNoDup.
  apply (NoDup_fmap_2 Z.of_nat), NoDup_ListNoDup, seq_NoDup.
Qed.

Lemma appRun_opportunity_ids_witness :
  opportunities stateReady = []
  /\ map Opportunity.id
       (opportunities
          (appRun [Select leadAcme; Convert drawQuarter leadAcme;
                   ShowTab TabLeads;
                   Select leadBolt; Convert drawLargest leadBolt;
                   ShowTab TabLeads;
                   Select leadCira; Convert drawHalf leadCira]
                  stateReady))
     = [1; 2; 3].
Proof.
  split; [reflexivity|].
  apply (appRun_opportunity_ids
           [Select leadAcme; Convert drawQuarter leadAcme;
            ShowTab TabLeads;
            Select leadBolt; Convert drawLargest leadBolt;
            ShowTab TabLeads;
            Select leadCira; Convert drawHalf leadCira]
           stateReady eq_refl).
Defined.

Lemma opportunities_invariant_run (acts : list AppAction) (st : State) :
  drawsInUnit acts ->
  map Opportunity.id (opportunities st)
  = map Z.of_nat (seq 1 (length (opportunities st))) ->
  Forall (fun o => Opportunity.stage o = js "Prospecting"
                   /\ exists v, Opportunity.amount o = Some v
                                /\ 10000 <= v < 110000)
         (opportunities st) ->
  10000 * Z.of_nat (length (opportunities st))
  <= OpportunitiesTable.totalValue (opportunities st)
  <= 109999 * Z.of_nat (length (opportunities st)) ->
  Forall (fun o => Opportunity.stage o = js "Prospecting"
                   /\ exists v, Opportunity.amount o = Some v
                                /\ 10000 <= v < 110000)
         (opportunities (appRun acts st))
  /\ 10000 * Z.of_nat (length (opportunities (appRun acts st)))
     <= OpportunitiesTable.totalValue (opportunities (appRun acts st))
     <= 109999 * Z.of_nat (length (opportunities (appRun acts st))).
Proof.
  revert st. induction acts as [|a acts IH]; intros st Hd Hids Hall Htot.
  - split; assumption.
  - inversion Hd as [|? ? Ha Hd']; subst.
    destruct (opportunities_invariant_step st a Ha Hids Hall Htot)
      as (Hids' & Hall' & Htot').
    apply (IH (appStep st a) Hd' Hids' Hall' Htot').
Qed.

(** From a console without opportunities, when every draw is a binary64
    number of [0, 1), the amounts being computed in binary64 as the code
    computes them:
    every opportunity is in stage 'Prospecting' and has an amount of
    [10000, 110000), its amount cell shows the amount (never 'N/A'), and
    the total of the summary row lies between 10000 n and 109999 n for
    the n opportunities. *)
Theorem appRun_opportunity_amounts (acts : list AppAction) (st : State) :
  opportunities st = [] ->
  drawsInUnit acts ->
  Forall (fun o => Opportunity.stage o = js "Prospecting"
                   /\ (exists v, Opportunity.amount o = Some v
                                 /\ 10000 <= v < 110000)
                   /\ OpportunitiesTable.amountCell o = Opportunity.amount o)
         (opportunities (appRun acts st))
  /\ 10000 * Z.of_nat (conversions acts)
     <= OpportunitiesTable.totalValue (opportunities (appRun acts st))
     <= 109999 * Z.of_nat (conversions acts).
Proof.
  intros Hnil Hd.
  assert (Hn : length (opportunities (appRun acts st)) = conversions acts)
    by (rewrite appRun_opportunities_length, Hnil; reflexivity).
  destruct (opportunities_invariant_run acts st Hd) as (Hall & Htot).
  - rewrite Hnil. reflexivity.
  - rewrite Hnil. constructor.
  - rewrite Hnil. simpl. unfold OpportunitiesTable.totalValue. simpl. lia.
  - rewrite Hn in Htot. split; [|exact Htot].
    eapply Forall_impl; [exact Hall|].
    intros o (Hs & v & Hv & Hr). split; [exact Hs|].
    split; [exists v; auto|].
    unfold OpportunitiesTable.amountCell. rewrite Hv.
    destruct (Z.eqb_spec v 0); [lia | reflexivity].
Qed.

Lemma appRun_opportunity_amounts_witness :
  (opportunities stateReady = []
   /\ drawsInUnit [Select leadAcme; Convert drawQuarter leadAcme;
                   ShowTab TabLeads;
                   Select leadBolt; Convert drawLargest leadBolt])
  /\ 10000 * 2
     <= OpportunitiesTable.totalValue
          (opportunities
             (appRun [Select leadAcme; Convert drawQuarter leadAcme;
                      ShowTab TabLeads;
                      Select leadBolt; Convert drawLargest leadBolt]
                     stateReady))
     <= 109999 * 2.
Proof.
  assert (Hd : drawsInUnit [Select leadAcme; Convert drawQuarter leadAcme;
                            ShowTab TabLeads;
                            Select leadBolt; Convert drawLargest leadBolt]).
  { unfold drawsInUnit, unitDraw.
    repeat match goal with
           | |- Forall _ (_ :: _) =>
               constructor; [first [exact I | simpl; lia]|]
           | |- Forall _ [] => constructor
           end. }
  split; [split; [reflexivity | exact Hd]|].
  apply (appRun_opportunity_amounts
           [Select leadAcme; Convert drawQuarter leadAcme;
            ShowTab TabLeads;
            Select leadBolt; Convert drawLargest leadBolt]
           stateReady eq_refl Hd).
Defined.

End AppSessionProperties.

(** ** Loading the leads *)

Section LoadProperties.

Import App.

(** A load, from any state (the first one or a retry): the screen is
    Loading until the fetch ends; then it is the error screen exactly when
    the load failed with a non-empty message, and Ready otherwise.  A
    success replaces the leads and leaves no error; a failure leaves the
    leads as they were. *)
Theorem loadLeads_outcome (r : FetchResult) (st : State) :
  screen (loadLeadsStart st) = Loading
  /\ (screen (loadLeadsFinish r (loadLeadsStart st)) = Error
      <-> r = FetchNotOk \/ r = FetchThrew None
          \/ exists m, r = FetchThrew (Some m) /\ m <> [])
  /\ (screen (loadLeadsFinish r (loadLeadsStart st)) = Ready
      <-> (exists data, r = FetchOk data) \/ r = FetchThrew (Some []))
  /\ (forall data, r = FetchOk data ->
        leads (loadLeadsFinish r (loadLeadsStart st)) = data
        /\ error (loadLeadsFinish r (loadLeadsStart st)) = None)
  /\ ((forall data, r <> FetchOk data) ->
        leads (loadLeadsFinish r (loadLeadsStart st)) = leads st)
  /\ opportunities (loadLeadsFinish r (loadLeadsStart st)) = opportunities st.
Proof.
  split; [reflexivity|]. split; [|split; [|split; [|split]]].
  - destruct r as [data| |[[|c m]|]]; unfold screen; simpl; split;
      try discriminate; try (intros _; tauto).
    + intros [H|[H|(m & H & _)]]; discriminate H.
    + intros [H|[H|(m & H & Hm)]]; try discriminate H.
      injection H as <-. contradiction.
    + intros _. right. right. exists (c :: m). split; [reflexivity|discriminate].
  - destruct r as [data| |[[|c m]|]]; unfold screen; simpl; split;
      try discriminate; try (intros _; solve [eauto]).
    + intros [(d & H)|H]; discriminate H.
    + intros [(d & H)|H]; discriminate H.
    + intros [(d & H)|H]; discriminate H.
  - intros data ->. split; reflexivity.
  - intros Hne. destruct r as [data| |[m|]]; try reflexivity.
    exfalso. apply (Hne data). reflexivity.
  - destruct r as [data| |[m|]]; reflexivity.
Qed.

End LoadProperties.

(** ** The pages of the leads view *)

Section PageProperties.

Import LeadsList.

Lemma totalPagesOf_bounds (n : nat) (p : Z) :
  0 < p ->
  (totalPagesOf n p - 1) * p < Z.of_nat n <= totalPagesOf n p * p.
Proof.
  intros Hp. rewrite totalPagesOf_ceil by exact Hp.
  pose proof (Z.div_mod (- Z.of_nat n) p ltac:(lia)) as Hdm.
  pose proof (Z.mod_pos_bound (- Z.of_nat n) p Hp) as Hm.
  split; nia.
Qed.

Lemma pageOf_take_drop (sorted : list Lead.t) (page p : Z) :
  0 < p -> 1 <= page ->
  pageOf sorted page p
  = firstn (Z.to_nat p) (skipn (Z.to_nat ((page - 1) * p)) sorted).
Proof.
  intros Hp Hpage. unfold pageOf, endIndex, startIndex.
  rewrite slice_forward by nia. f_equal. lia.
Qed.

Lemma length_pageOf (sorted : list Lead.t) (page p : Z) :
  0 < p -> 1 <= page ->
  Z.of_nat (length (pageOf sorted page p))
  = Z.max 0 (Z.min p (Z.of_nat (length sorted) - (page - 1) * p)).
Proof.
  intros Hp Hpage. rewrite pageOf_take_drop by assumption.
  rewrite length_firstn, length_skipn.
  assert (0 <= (page - 1) * p) by nia. lia.
Qed.

(** For a page size p > 0: every page before the last one shows exactly
    p leads, the last page shows the rest, between 1 and p leads, and a
    page after the last one shows none. *)
Theorem page_sizes (sorted : list Lead.t) (page p : Z) :
  0 < p -> 1 <= page ->
  (page < totalPagesOf (length sorted) p ->
   Z.of_nat (length (pageOf sorted page p)) = p)
  /\ (page = totalPagesOf (length sorted) p ->
      1 <= Z.of_nat (length (pageOf sorted page p)) <= p
      /\ Z.of_nat (length (pageOf sorted page p))
         = Z.of_nat (length sorted) - (page - 1) * p)
  /\ (totalPagesOf (length sorted) p < page -> pageOf sorted page p = []).
Proof.
  intros Hp Hpage.
  pose proof (totalPagesOf_bounds (length sorted) p Hp) as Hb.
  pose proof (length_pageOf sorted page p Hp Hpage) as Hl.
  split; [|split].
  - intros Hlt. rewrite Hl. nia.
  - intros ->. rewrite Hl. nia.
  - intros Hgt. apply length_zero_iff_nil.
    assert (Z.of_nat (length (pageOf sorted page p)) = 0); [|lia].
    rewrite Hl. nia.
Qed.

Lemma page_sizes_witness :
  (0 < 10 /\ 1 <= 3)
  /\ LeadsList.pageOf sampleLeads 3 10 = [].
Proof.
  split; [lia|].
  apply (proj2 (proj2 (page_sizes sampleLeads 3 10 ltac:(lia) ltac:(lia)))).
  reflexivity.
Defined.

(** The header "Showing a-b of n" names the rows shown: on a page that
    starts within the list, b - a + 1 rows are shown and row i is the
    lead number a + i of the filtered and sorted leads. *)
Theorem showing_range (sorted : list Lead.t) (page p : Z) :
  0 < p -> 1 <= page ->
  startIndex page p <= Z.of_nat (length sorted) ->
  Z.of_nat (length (pageOf sorted page p))
  = showingTo (length sorted) page p - showingFrom page p + 1
  /\ (forall i : nat,
        (i < length (pageOf sorted page p))%nat ->
        pageOf sorted page p !! i
        = sorted !! (Z.to_nat (showingFrom page p - 1) + i)%nat).
Proof.
  intros Hp Hpage Hstart.
  pose proof (length_pageOf sorted page p Hp Hpage) as Hl.
  unfold showingTo, showingFrom, endIndex, startIndex in *.
  split; [lia|].
  intros i Hi. rewrite pageOf_take_drop by assumption.
  rewrite pageOf_take_drop in Hi by assumption.
  rewrite length_firstn in Hi.
  rewrite lookup_take_lt by lia. rewrite lookup_drop.
  f_equal. lia.
Qed.

Lemma showing_range_witness :
  (0 < 2 /\ 1 <= 2
   /\ LeadsList.startIndex 2 2 <= Z.of_nat (length sampleLeads))
  /\ Z.of_nat (length (LeadsList.pageOf sampleLeads 2 2))
     = LeadsList.showingTo (length sampleLeads) 2 2
       - LeadsList.showingFrom 2 2 + 1.
Proof.
  assert (H : LeadsList.startIndex 2 2 <= Z.of_nat (length sampleLeads))
    by (vm_compute; discriminate).
  split; [repeat split; try lia; exact H|].
  apply (proj1 (showing_range sampleLeads 2 2 ltac:(lia) ltac:(lia) H)).
Defined.



End PageProperties.

(** ** The pagination controls *)

Section NavigationProperties.

Import LeadsList.

Lemma pageNum_shift (totalPages currentPage i : Z) :
  pageNum totalPages currentPage i = pageNum totalPages currentPage 0 + i.
Proof.
  unfold pageNum.
  repeat match goal with
         | |- context [if ?b then _ else _] => destruct b
         end; lia.
Qed.

Lemma pageNum_window (totalPages currentPage : Z) :
  1 <= currentPage <= totalPages ->
  1 <= pageNum totalPages currentPage 0
  /\ pageNum totalPages currentPage 0 + Z.min 5 totalPages - 1 <= totalPages
  /\ pageNum totalPages currentPage 0 <= currentPage
     < pageNum totalPages currentPage 0 + Z.min 5 totalPages.
Proof.
  intros H. unfold pageNum.
  destruct (Z.leb_spec totalPages 5); [lia|].
  destruct (Z.leb_spec currentPage 3); [lia|].
  destruct (Z.leb_spec (totalPages - 2) currentPage); lia.
Qed.

Lemma pageButtons_lookup (totalPages currentPage : Z) (i : nat) (b : Z) :
  pageButtons totalPages currentPage !! i = Some b ->
  b = pageNum totalPages currentPage 0 + Z.of_nat i
  /\ Z.of_nat i < Z.min 5 totalPages.
Proof.
  unfold pageButtons. intros H.
  rewrite list_lookup_fmap in H.
  destruct (seq 0 (Z.to_nat (Z.min 5 totalPages)) !! i) as [k|] eqn:E;
    [|discriminate H].
  apply lookup_seq in E as [-> Hlt]. simpl in H. injection H as <-.
  split; [apply pageNum_shift | lia].
Qed.

Lemma pageButtons_in_range (totalPages currentPage : Z) (i : nat) (b : Z) :
  1 <= currentPage <= totalPages ->
  pageButtons totalPages currentPage !! i = Some b ->
  1 <= b <= totalPages.
Proof.
  intros H Hb. pose proof (pageNum_window totalPages currentPage H) as Hw.
  apply pageButtons_lookup in Hb as [-> Hi]. lia.
Qed.

(** With the current page among the pages 1 to totalPages, the row of
    page buttons has min(5, totalPages) buttons, numbered consecutively,
    all of them pages that exist, and the current page is one of them. *)
Theorem pageButtons_window (totalPages currentPage : Z) :
  1 <= currentPage <= totalPages ->
  Z.of_nat (length (pageButtons totalPages currentPage)) = Z.min 5 totalPages
  /\ (forall (i : nat) (b : Z),
        pageButtons totalPages currentPage !! i = Some b ->
        1 <= b <= totalPages
        /\ b = pageNum totalPages currentPage 0 + Z.of_nat i)
  /\ In currentPage (pageButtons totalPages currentPage)
  /\ List.NoDup (pageButtons totalPages currentPage).
Proof.
  intros H. pose proof (pageNum_window totalPages currentPage H) as Hw.
  split; [|split; [|split]].
  - unfold pageButtons. rewrite length_map, length_seq. lia.
  - intros i b Hb. apply pageButtons_lookup in Hb as [-> Hi].
    split; [lia | reflexivity].
  - unfold pageButtons. apply in_map_iff.
    exists (Z.to_nat (currentPage - pageNum totalPages currentPage 0)).
    split.
    + rewrite pageNum_shift. lia.
    + apply in_seq. lia.
  - unfold pageButtons. apply NoDup_ListNoDup, NoDup_fmap_2_strong.
    + intros x y _ _ Hxy.
      rewrite (pageNum_shift _ _ (Z.of_nat x)),
        (pageNum_shift _ _ (Z.of_nat y)) in Hxy. lia.
    + apply NoDup_ListNoDup, seq_NoDup.
Qed.

Lemma pageButtons_window_witness :
  1 <= 7 <= 9 /\ In 7 (LeadsList.pageButtons 9 7).
Proof.
  assert (H : 1 <= 7 <= 9) by lia.
  split; [exact H|].
  apply (proj1 (proj2 (proj2 (pageButtons_window 9 7 H)))).
Defined.

Example pageButtons_middle : pageButtons 9 5 = [3; 4; 5; 6; 7].
Proof. reflexivity. Qed.

Example pageButtons_end : pageButtons 9 8 = [5; 6; 7; 8; 9].
Proof. reflexivity. Qed.

Example pageButtons_few : pageButtons 3 2 = [1; 2; 3].
Proof. reflexivity. Qed.

Lemma pageButtons_from_one (totalPages currentPage : Z) (i : nat) (b : Z) :
  pageButtons totalPages currentPage !! i = Some b -> 1 <= b.
Proof.
  intros Hb. apply pageButtons_lookup in Hb as [-> Hi].
  unfold pageNum.
  destruct (Z.leb_spec totalPages 5); [lia|].
  destruct (Z.leb_spec currentPage 3); [lia|].
  destruct (Z.leb_spec (totalPages - 2) currentPage); lia.
Qed.

Lemma resume_filters (p : Pending) (st : ViewState) :
  searchTerm (resume p st) = searchTerm st
  /\ statusFilter (resume p st) = statusFilter st
  /\ sortBy (resume p st) = sortBy st
  /\ sortOrder (resume p st) = sortOrder st
  /\ pageSize (resume p st) = pageSize st.
Proof. destruct p; repeat split. Qed.

Lemma resume_page (p : Pending) (st : ViewState) :
  currentPage (resume p st)
  = match p with
    | PendingPageChange page => page
    | PendingFirstPage => 1
    | PendingLastPage totalPages => totalPages
    | PendingPreviousPage => Z.max 1 (currentPage st - 1)
    | PendingNextPage totalPages => Z.min totalPages (currentPage st + 1)
    end.
Proof. destruct p; reflexivity. Qed.

(** A click leaves the page and the preferences as they are; only the
    loading flag is set, when a handler was reached. *)
Lemma click_view (totalPages : Z) (n : Nav) (st : ViewState) :
  fst (click totalPages n st)
  = match snd (click totalPages n st) with
    | Some _ => pageLoadingStart st
    | None => st
    end.
Proof.
  unfold click. destruct (negb (showsPagination totalPages)); [reflexivity|].
  destruct n as [| |i| |].
  - destruct (currentPage st =? 1); reflexivity.
  - destruct (currentPage st =? 1); reflexivity.
  - destruct (pageButtons totalPages (currentPage st) !! i); reflexivity.
  - destruct (currentPage st =? totalPages); reflexivity.
  - destruct (currentPage st =? totalPages); reflexivity.
Qed.

Lemma click_filters (totalPages : Z) (n : Nav) (st : ViewState) :
  currentPage (fst (click totalPages n st)) = currentPage st
  /\ searchTerm (fst (click totalPages n st)) = searchTerm st
  /\ statusFilter (fst (click totalPages n st)) = statusFilter st
  /\ sortBy (fst (click totalPages n st)) = sortBy st
  /\ sortOrder (fst (click totalPages n st)) = sortOrder st
  /\ pageSize (fst (click totalPages n st)) = pageSize st.
Proof.
  rewrite click_view. destruct (snd (click totalPages n st)); repeat split.
Qed.

(** What a click leaves waiting, control by control. *)
Lemma click_waiting (totalPages : Z) (n : Nav) (st : ViewState) :
  snd (click totalPages n st)
  = if totalPages <=? 1 then None
    else match n with
         | NavFirst =>
             if currentPage st =? 1 then None else Some PendingFirstPage
         | NavPrevious =>
             if currentPage st =? 1 then None else Some PendingPreviousPage
         | NavPage i =>
             match pageButtons totalPages (currentPage st) !! i with
             | Some page => Some (PendingPageChange page)
             | None => None
             end
         | NavNext =>
             if currentPage st =? totalPages then None
             else Some (PendingNextPage totalPages)
         | NavLast =>
             if currentPage st =? totalPages then None
             else Some (PendingLastPage totalPages)
         end.
Proof.
  unfold click, showsPagination.
  destruct (Z.ltb_spec 1 totalPages), (Z.leb_spec totalPages 1); try lia;
    cbn [negb]; [|reflexivity].
  destruct n as [| |i| |].
  - destruct (currentPage st =? 1); reflexivity.
  - destruct (currentPage st =? 1); reflexivity.
  - destruct (pageButtons totalPages (currentPage st) !! i); reflexivity.
  - destruct (currentPage st =? totalPages); reflexivity.
  - destruct (currentPage st =? totalPages); reflexivity.
Qed.

Lemma click_pending_from_one (totalPages : Z) (n : Nav) (st : ViewState)
    (p : Pending) :
  snd (click totalPages n st) = Some p -> pendingFromOne p.
Proof.
  rewrite click_waiting.
  destruct (Z.leb_spec totalPages 1); [discriminate|].
  destruct n as [| |i| |].
  - destruct (currentPage st =? 1); [discriminate|].
    intros Hp. injection Hp as <-. exact I.
  - destruct (currentPage st =? 1); [discriminate|].
    intros Hp. injection Hp as <-. exact I.
  - destruct (pageButtons totalPages (currentPage st) !! i) as [b|] eqn:E;
      [|discriminate].
    intros Hp. injection Hp as <-. simpl.
    apply (pageButtons_from_one _ _ _ _ E).
  - destruct (currentPage st =? totalPages); [discriminate|].
    intros Hp. injection Hp as <-. simpl. lia.
  - destruct (currentPage st =? totalPages); [discriminate|].
    intros Hp. injection Hp as <-. simpl. lia.
Qed.

Lemma click_pending_fits (totalPages : Z) (n : Nav) (st : ViewState)
    (p : Pending) :
  1 <= currentPage st <= Z.max 1 totalPages ->
  snd (click totalPages n st) = Some p -> pendingFits totalPages p.
Proof.
  intros Hpage. rewrite click_waiting.
  destruct (Z.leb_spec totalPages 1); [discriminate|].
  destruct n as [| |i| |].
  - destruct (currentPage st =? 1); [discriminate|].
    intros Hp. injection Hp as <-. exact I.
  - destruct (currentPage st =? 1); [discriminate|].
    intros Hp. injection Hp as <-. exact I.
  - destruct (pageButtons totalPages (currentPage st) !! i) as [b|] eqn:E;
      [|discriminate].
    intros Hp. injection Hp as <-. simpl.
    apply (pageButtons_in_range totalPages (currentPage st) i b); [lia|exact E].
  - destruct (currentPage st =? totalPages); [discriminate|].
    intros Hp. injection Hp as <-. reflexivity.
  - destruct (currentPage st =? totalPages); [discriminate|].
    intros Hp. injection Hp as <-. reflexivity.
Qed.

(** A click on a pagination control while the page is among the pages 1
    to totalPages, and the end of its delay with nothing changed in
    between: the page stays as it is during the delay, with the loading
    flag set; after the delay the flag is cleared and the page is the
    first page, the page before, the page of the button clicked, the
    page after or the last page, a page among 1 to totalPages; the
    filters, the sort and the page size are never touched.  A click
    reaches no handler, and changes nothing, exactly when the controls
    are not rendered (a single page), the button is disabled (first and
    previous on page 1, next and last on the last page) or there is no
    button of that index. *)
Theorem click_resume_in_range (totalPages : Z) (n : Nav) (st : ViewState) :
  1 <= currentPage st <= totalPages ->
  (forall p : Pending,
     snd (click totalPages n st) = Some p ->
     fst (click totalPages n st) = setIsPageLoading true st
     /\ isPageLoading (resume p (fst (click totalPages n st))) = false
     /\ 1 <= currentPage (resume p (fst (click totalPages n st)))
          <= totalPages
     /\ match n with
        | NavFirst =>
            currentPage (resume p (fst (click totalPages n st))) = 1
        | NavPrevious =>
            currentPage (resume p (fst (click totalPages n st)))
            = currentPage st - 1
        | NavPage i =>
            pageButtons totalPages (currentPage st) !! i
            = Some (currentPage (resume p (fst (click totalPages n st))))
        | NavNext =>
            currentPage (resume p (fst (click totalPages n st)))
            = currentPage st + 1
        | NavLast =>
            currentPage (resume p (fst (click totalPages n st)))
            = totalPages
        end
     /\ searchTerm (resume p (fst (click totalPages n st))) = searchTerm st
     /\ statusFilter (resume p (fst (click totalPages n st)))
        = statusFilter st
     /\ sortBy (resume p (fst (click totalPages n st))) = sortBy st
     /\ sortOrder (resume p (fst (click totalPages n st))) = sortOrder st
     /\ pageSize (resume p (fst (click totalPages n st))) = pageSize st)
  /\ (snd (click totalPages n st) = None
      <-> totalPages <= 1
          \/ match n with
             | NavFirst | NavPrevious => currentPage st = 1
             | NavNext | NavLast => currentPage st = totalPages
             | NavPage i =>
                 pageButtons totalPages (currentPage st) !! i = None
             end)
  /\ (snd (click totalPages n st) = None -> fst (click totalPages n st) = st).
Proof.
  intros Hpage. split; [|split].
  - intros p Hp.
    pose proof (click_view totalPages n st) as Hview. rewrite Hp in Hview.
    rewrite Hview. split; [reflexivity|].
    split; [destruct p; reflexivity|].
    destruct (resume_filters p (pageLoadingStart st))
      as (F1 & F2 & F3 & F4 & F5).
    rewrite F1, F2, F3, F4, F5, resume_page.
    cbn [currentPage pageLoadingStart setIsPageLoading].
    rewrite click_waiting in Hp.
    destruct (Z.leb_spec totalPages 1); [discriminate|].
    destruct n as [| |i| |].
    + destruct (Z.eqb_spec (currentPage st) 1); [discriminate|].
      injection Hp as <-. repeat split; lia.
    + destruct (Z.eqb_spec (currentPage st) 1); [discriminate|].
      injection Hp as <-. repeat split; lia.
    + destruct (pageButtons totalPages (currentPage st) !! i) as [b|] eqn:E;
        [|discriminate].
      injection Hp as <-.
      pose proof (pageButtons_in_range _ _ _ _ Hpage E).
      repeat split; lia.
    + destruct (Z.eqb_spec (currentPage st) totalPages); [discriminate|].
      injection Hp as <-. repeat split; lia.
    + destruct (Z.eqb_spec (currentPage st) totalPages); [discriminate|].
      injection Hp as <-. repeat split; lia.
  - rewrite click_waiting.
    destruct (Z.leb_spec totalPages 1) as [Hle|Hgt];
      [split; [left; exact Hle | reflexivity]|].
    destruct n as [| |i| |];
      repeat match goal with
             | |- context [if ?a =? ?b then _ else _] =>
                 destruct (Z.eqb_spec a b)
             end;
      try (split; [intros _; right; assumption | reflexivity]);
      try (split; [discriminate | intros [H|H]; [lia | contradiction]]).
    destruct (pageButtons totalPages (currentPage st) !! i) as [b|];
      [split; [discriminate | intros [H|H]; [lia | discriminate]]
      |split; [intros _; right; reflexivity | reflexivity]].
  - intros Hnone. rewrite click_view, Hnone. reflexivity.
Qed.

Lemma click_resume_in_range_witness :
  1 <= LeadsList.currentPage viewNewPage2 <= 2
  /\ LeadsList.currentPage
       (LeadsList.resume LeadsList.PendingPreviousPage
          (fst (LeadsList.click 2 LeadsList.NavPrevious viewNewPage2)))
     = LeadsList.currentPage viewNewPage2 - 1.
Proof.
  assert (H : 1 <= LeadsList.currentPage viewNewPage2 <= 2)
    by (vm_compute; split; discriminate).
  split; [exact H|].
  apply (proj1 (proj2 (proj2 (proj2
           (proj1 (click_resume_in_range 2 LeadsList.NavPrevious
                     viewNewPage2 H)
                  LeadsList.PendingPreviousPage eq_refl))))).
Defined.

Example click_page_button :
  click 9 (NavPage 4) (setCurrentPage 5 initial)
  = (setIsPageLoading true (setCurrentPage 5 initial),
     Some (PendingPageChange 7)).
Proof. reflexivity. Qed.

Example click_disabled_next :
  click 2 NavNext viewNewPage2 = (viewNewPage2, None).
Proof. reflexivity. Qed.

End NavigationProperties.

(** ** Sessions of the leads view *)

Section ViewSessionProperties.

Import LeadsList.

Variable toLowerCase : jsstring -> jsstring.
Variable leads : list Lead.t.

Lemma loadSavedFilters_pageSize_offered (store : Storage) :
  In (pageSize (loadSavedFilters store)) pageSizeOptions.
Proof.
  rewrite loadSavedFilters_pageSize.
  destruct (store !! "leads-page-size") as [s|]; [|simpl; auto].
  destruct (truthy s && arrayIncludes _ s) eqn:E; [|simpl; auto].
  apply andb_true_iff in E as [_ E]. apply arrayIncludes_spec in E.
  simpl in E. destruct E as [<-|[<-|[<-|[<-|[]]]]]; simpl; auto.
Qed.

Lemma totalPages_same (st st' : ViewState) :
  searchTerm st' = searchTerm st -> statusFilter st' = statusFilter st ->
  sortBy st' = sortBy st -> sortOrder st' = sortOrder st ->
  pageSize st' = pageSize st ->
  totalPages toLowerCase leads st' = totalPages toLowerCase leads st.
Proof.
  intros H1 H2 H3 H4 H5. unfold totalPages, filteredAndSortedLeads.
  rewrite H1, H2, H3, H4, H5. reflexivity.
Qed.

Lemma SortKey_eqb_spec (a b : SortKey) : SortKey_eqb a b = true <-> a = b.
Proof. destruct a, b; simpl; split; congruence. Qed.

Lemma SortOrder_eqb_spec (a b : SortOrder) : SortOrder_eqb a b = true <-> a = b.
Proof. destruct a, b; simpl; split; congruence. Qed.

(** A change either puts the view on page 1 or leaves it as it was. *)
Lemma change_page_or_same (c : Change) (st : ViewState) (store : Storage) :
  currentPage (fst (change c (st, store))) = 1
  \/ fst (change c (st, store)) = st.
Proof.
  destruct c as [v|f|k|n].
  - unfold change, handleSearchChange, resetPageEffect, filtersChanged.
    cbn [fst searchTerm statusFilter sortBy sortOrder setSearchTerm].
    destruct (strEq (searchTerm st) v) eqn:E; [|left; reflexivity].
    apply strEq_spec in E. subst v.
    rewrite (proj2 (StatusFilter_eqb_spec _ _) eq_refl),
      (proj2 (SortKey_eqb_spec _ _) eq_refl),
      (proj2 (SortOrder_eqb_spec _ _) eq_refl).
    right. destruct st; reflexivity.
  - unfold change, handleStatusFilterChange, resetPageEffect, filtersChanged.
    cbn [fst searchTerm statusFilter sortBy sortOrder setStatusFilter].
    rewrite strEq_refl.
    destruct (StatusFilter_eqb (statusFilter st) f) eqn:E; [|left; reflexivity].
    apply StatusFilter_eqb_spec in E. subst f.
    rewrite (proj2 (SortKey_eqb_spec _ _) eq_refl),
      (proj2 (SortOrder_eqb_spec _ _) eq_refl).
    right. destruct st; reflexivity.
  - left. apply (filter_changes_reset_page (SortChange k)). exact I.
  - left. apply (filter_changes_reset_page (PageSizeChange n)). exact I.
Qed.

Lemma change_pageSize (c : Change) (st : ViewState) (store : Storage) :
  pageSize (fst (change c (st, store)))
  = match c with
    | PageSizeChange v => v
    | _ => pageSize st
    end.
Proof.
  destruct c; unfold change, resetPageEffect;
    [ unfold handleSearchChange | unfold handleStatusFilterChange
    | unfold handleSortChange | unfold handlePageSizeChange ];
    cbn [fst]; destruct (filtersChanged _ _); reflexivity.
Qed.

Lemma totalPages_nonneg (st : ViewState) :
  0 < pageSize st -> 0 <= totalPages toLowerCase leads st.
Proof.
  intros Hp. unfold totalPages.
  pose proof (totalPagesOf_bounds
                (length (filteredAndSortedLeads toLowerCase leads st))
                (pageSize st) Hp).
  nia.
Qed.

Lemma offered_positive (v : Z) : In v pageSizeOptions -> 0 < v.
Proof. simpl. intros [<-|[<-|[<-|[<-|[]]]]]; lia. Qed.

Lemma mounted_in_step (store : Storage) : viewInStep (mounted store).
Proof.
  unfold viewInStep, mounted. cbn [sessionView sessionStore sessionPending].
  split; [apply loadSavedFilters_pageSize_offered|].
  split; [rewrite loadSavedFilters_currentPage; lia|].
  split; [constructor|]. repeat split.
Qed.

Lemma mounted_on_page (store : Storage) :
  viewOnPage toLowerCase leads (mounted store).
Proof.
  unfold viewOnPage, mounted. cbn [sessionView sessionPending].
  split; [rewrite loadSavedFilters_currentPage; lia | constructor].
Qed.

(** The three kinds of step, on the fields of the session. *)
Lemma viewStep_change (cur : viewSession) (c : Change) :
  viewStep toLowerCase leads cur (DoChange c)
  = mkSession (fst (change c (sessionView cur, sessionStore cur)))
              (snd (change c (sessionView cur, sessionStore cur)))
              (sessionPending cur).
Proof.
  unfold viewStep.
  destruct (change c (sessionView cur, sessionStore cur)); reflexivity.
Qed.

Lemma viewStep_click (cur : viewSession) (n : Nav) :
  viewStep toLowerCase leads cur (Click n)
  = mkSession
      (fst (click (totalPages toLowerCase leads (sessionView cur)) n
                  (sessionView cur)))
      (sessionStore cur)
      (sessionPending cur
       ++ match snd (click (totalPages toLowerCase leads (sessionView cur)) n
                           (sessionView cur)) with
          | Some p => [p]
          | None => []
          end).
Proof.
  unfold viewStep.
  destruct (click (totalPages toLowerCase leads (sessionView cur)) n
                  (sessionView cur)); reflexivity.
Qed.

Lemma viewStep_keeps_in_step (cur : viewSession) (a : ViewAction) :
  match a with
  | DoChange (PageSizeChange v) => In v pageSizeOptions
  | _ => True
  end ->
  viewInStep cur -> viewInStep (viewStep toLowerCase leads cur a).
Proof.
  intros Ha Hin. pose proof Hin as (Hsize & Hpage & Hwait & Hagree).
  destruct a as [c|n|].
  - rewrite viewStep_change. unfold viewInStep.
    cbn [sessionView sessionStore sessionPending].
    assert (Hc : match c with
                 | PageSizeChange v => In v pageSizeOptions
                 | _ => True
                 end) by (destruct c; exact Ha || exact I).
    destruct Hagree as (_ & _ & _ & _ & Hps).
    split; [rewrite change_pageSize; destruct c; assumption|].
    split; [|split; [exact Hwait|]].
    + destruct (change_page_or_same c (sessionView cur) (sessionStore cur))
        as [H1|Hsame]; [rewrite H1; lia | rewrite Hsame; exact Hpage].
    + apply change_keeps_agreement; assumption.
  - rewrite viewStep_click. unfold viewInStep.
    cbn [sessionView sessionStore sessionPending].
    set (tp := totalPages toLowerCase leads (sessionView cur)).
    destruct (click_filters tp n (sessionView cur))
      as (F0 & F1 & F2 & F3 & F4 & F5).
    rewrite F0, F1, F2, F3, F4, F5.
    split; [exact Hsize|]. split; [exact Hpage|]. split; [|exact Hagree].
    apply Forall_app. split; [exact Hwait|].
    destruct (snd (click tp n (sessionView cur))) as [p|] eqn:E;
      constructor; [|constructor].
    apply (click_pending_from_one tp n (sessionView cur) p E).
  - unfold viewStep.
    destruct (sessionPending cur) as [|p rest] eqn:E.
    + exact Hin.
    + unfold viewInStep. cbn [sessionView sessionStore sessionPending].
      destruct (resume_filters p (sessionView cur))
        as (F1 & F2 & F3 & F4 & F5).
      rewrite F1, F2, F3, F4, F5, resume_page.
      inversion Hwait as [|? ? Hp Hrest]; subst.
      split; [exact Hsize|]. split; [|split; [exact Hrest | exact Hagree]].
      destruct p; simpl in Hp; lia.
Qed.

Lemma viewStep_keeps_on_page (cur : viewSession) (a : ViewAction) :
  match a with
  | DoChange _ => sessionPending cur = []
  | _ => True
  end ->
  viewInStep cur ->
  viewOnPage toLowerCase leads cur ->
  viewOnPage toLowerCase leads (viewStep toLowerCase leads cur a).
Proof.
  intros Hcalm (_ & Hpage & _) Hon. pose proof Hon as (Hlast & Hfits).
  destruct a as [c|n|].
  - rewrite viewStep_change. unfold viewOnPage.
    cbn [sessionView sessionPending]. rewrite Hcalm.
    split; [|constructor].
    destruct (change_page_or_same c (sessionView cur) (sessionStore cur))
      as [H1|Hsame]; [rewrite H1; lia | rewrite Hsame; exact Hlast].
  - rewrite viewStep_click. unfold viewOnPage.
    cbn [sessionView sessionPending].
    set (tp := totalPages toLowerCase leads (sessionView cur)) in *.
    destruct (click_filters tp n (sessionView cur))
      as (F0 & F1 & F2 & F3 & F4 & F5).
    rewrite (totalPages_same (sessionView cur) _ F1 F2 F3 F4 F5), F0.
    fold tp. split; [exact Hlast|].
    apply Forall_app. split; [exact Hfits|].
    destruct (snd (click tp n (sessionView cur))) as [p|] eqn:E;
      constructor; [|constructor].
    apply (click_pending_fits tp n (sessionView cur) p); [lia | exact E].
  - unfold viewStep.
    destruct (sessionPending cur) as [|p rest] eqn:E.
    + exact Hon.
    + unfold viewOnPage. cbn [sessionView sessionPending].
      destruct (resume_filters p (sessionView cur))
        as (F1 & F2 & F3 & F4 & F5).
      rewrite (totalPages_same (sessionView cur) _ F1 F2 F3 F4 F5),
        resume_page.
      inversion Hfits as [|? ? Hp Hrest]; subst.
      split; [|exact Hrest].
      destruct p; simpl in Hp; lia.
Qed.

Lemma viewRun_keeps_in_step (acts : list ViewAction) (cur : viewSession) :
  offeredSizesOnly acts ->
  viewInStep cur -> viewInStep (viewRun toLowerCase leads acts cur).
Proof.
  revert cur. induction acts as [|a acts IH]; intros cur Ho Hin; [exact Hin|].
  inversion Ho as [|? ? Ha Ho']; subst.
  apply (IH (viewStep toLowerCase leads cur a) Ho').
  apply viewStep_keeps_in_step; assumption.
Qed.

Lemma viewRun_keeps_on_page (acts : list ViewAction) (cur : viewSession) :
  offeredSizesOnly acts ->
  calmSession toLowerCase leads acts cur ->
  viewInStep cur ->
  viewOnPage toLowerCase leads cur ->
  viewOnPage toLowerCase leads (viewRun toLowerCase leads acts cur).
Proof.
  revert cur.
  induction acts as [|a acts IH]; intros cur Ho Hcalm Hin Hon; [exact Hon|].
  inversion Ho as [|? ? Ha Ho']; subst.
  destruct Hcalm as [Hnow Hlater].
  apply (IH (viewStep toLowerCase leads cur a) Ho' Hlater).
  - apply viewStep_keeps_in_step; assumption.
  - apply viewStep_keeps_on_page; assumption.
Qed.

(** While the lead list stays the same, whatever the store held at
    mount and however the changes of filter, sort and page size (of the
    selector), the clicks on the pagination controls and the ends of the
    300 ms delays follow one another, the page size is 5, 10, 20 or 50
    and the page index is at least 1.  When no filter, sort or page size
    is changed while a navigation waits for its delay to end, the view
    also shows a page that exists: the page index is at most the number
    of pages (1 when no lead passes the filter). *)
Theorem view_page_exists (acts : list ViewAction) (store : Storage) :
  offeredSizesOnly acts ->
  In (pageSize
        (sessionView (viewRun toLowerCase leads acts (mounted store))))
     pageSizeOptions
  /\ 1 <= currentPage
            (sessionView (viewRun toLowerCase leads acts (mounted store)))
  /\ (calmSession toLowerCase leads acts (mounted store) ->
      currentPage
        (sessionView (viewRun toLowerCase leads acts (mounted store)))
      <= Z.max 1 (totalPages toLowerCase leads
                    (sessionView
                       (viewRun toLowerCase leads acts (mounted store))))).
Proof.
  intros Ho.
  destruct (viewRun_keeps_in_step acts _ Ho (mounted_in_step store))
    as (H1 & H2 & _).
  split; [exact H1|]. split; [exact H2|].
  intros Hcalm.
  apply (viewRun_keeps_on_page acts _ Ho Hcalm (mounted_in_step store)
           (mounted_on_page store)).
Qed.

(** Whatever the store held at mount and whatever the user does in the
    view, with the navigation delays ending at any moment, mounting the
    view again on the store as the session left it restores the search
    text, the status filter, the sort key, the sort direction and the
    page size of the view as the session left them. *)
Theorem view_reload_restores (acts : list ViewAction) (store : Storage) :
  offeredSizesOnly acts ->
  searchTerm (loadSavedFilters
                (sessionStore
                   (viewRun toLowerCase leads acts (mounted store))))
  = searchTerm (sessionView
                  (viewRun toLowerCase leads acts (mounted store)))
  /\ statusFilter (loadSavedFilters
                     (sessionStore
                        (viewRun toLowerCase leads acts (mounted store))))
     = statusFilter (sessionView
                       (viewRun toLowerCase leads acts (mounted store)))
  /\ sortBy (loadSavedFilters
               (sessionStore
                  (viewRun toLowerCase leads acts (mounted store))))
     = sortBy (sessionView
                 (viewRun toLowerCase leads acts (mounted store)))
  /\ sortOrder (loadSavedFilters
                  (sessionStore
                     (viewRun toLowerCase leads acts (mounted store))))
     = sortOrder (sessionView
                    (viewRun toLowerCase leads acts (mounted store)))
  /\ pageSize (loadSavedFilters
                 (sessionStore
                    (viewRun toLowerCase leads acts (mounted store))))
     = pageSize (sessionView
                   (viewRun toLowerCase leads acts (mounted store))).
Proof.
  intros Ho.
  destruct (viewRun_keeps_in_step acts _ Ho (mounted_in_step store))
    as (_ & _ & _ & H).
  exact H.
Qed.

End ViewSessionProperties.

Lemma view_page_exists_witness :
  offeredSizesOnly
    [DoChange (LeadsList.PageSizeChange 5); Click LeadsList.NavNext;
     TimerFires; Click (LeadsList.NavPage 1); Click LeadsList.NavFirst;
     TimerFires; TimerFires; DoChange (LeadsList.SearchChange (js "lead"));
     Click LeadsList.NavLast; TimerFires]
  /\ calmSession toLowerCaseAscii sixNewLeads
       [DoChange (LeadsList.PageSizeChange 5); Click LeadsList.NavNext;
        TimerFires; Click (LeadsList.NavPage 1); Click LeadsList.NavFirst;
        TimerFires; TimerFires; DoChange (LeadsList.SearchChange (js "lead"));
        Click LeadsList.NavLast; TimerFires]
       (mounted ∅)
  /\ 1 <= LeadsList.currentPage
            (sessionView
               (viewRun toLowerCaseAscii sixNewLeads
                  [DoChange (LeadsList.PageSizeChange 5);
                   Click LeadsList.NavNext; TimerFires;
                   Click (LeadsList.NavPage 1); Click LeadsList.NavFirst;
                   TimerFires; TimerFires;
                   DoChange (LeadsList.SearchChange (js "lead"));
                   Click LeadsList.NavLast; TimerFires]
                  (mounted ∅)))
       <= Z.max 1 (LeadsList.totalPages toLowerCaseAscii sixNewLeads
                     (sessionView
                        (viewRun toLowerCaseAscii sixNewLeads
                           [DoChange (LeadsList.PageSizeChange 5);
                            Click LeadsList.NavNext; TimerFires;
                            Click (LeadsList.NavPage 1);
                            Click LeadsList.NavFirst;
                            TimerFires; TimerFires;
                            DoChange (LeadsList.SearchChange (js "lead"));
                            Click LeadsList.NavLast; TimerFires]
                           (mounted ∅)))).
Proof.
  assert (H : offeredSizesOnly
    [DoChange (LeadsList.PageSizeChange 5); Click LeadsList.NavNext;
     TimerFires; Click (LeadsList.NavPage 1); Click LeadsList.NavFirst;
     TimerFires; TimerFires; DoChange (LeadsList.SearchChange (js "lead"));
     Click LeadsList.NavLast; TimerFires]).
  { unfold offeredSizesOnly.
    repeat match goal with
           | |- Forall _ (_ :: _) =>
               constructor; [first [exact I | simpl; tauto]|]
           | |- Forall _ [] => constructor
           end. }
  assert (C : calmSession toLowerCaseAscii sixNewLeads
    [DoChange (LeadsList.PageSizeChange 5); Click LeadsList.NavNext;
     TimerFires; Click (LeadsList.NavPage 1); Click LeadsList.NavFirst;
     TimerFires; TimerFires; DoChange (LeadsList.SearchChange (js "lead"));
     Click LeadsList.NavLast; TimerFires]
    (mounted ∅)).
  { vm_compute. repeat split. }
  split; [exact H|]. split; [exact C|].
  destruct (view_page_exists toLowerCaseAscii sixNewLeads _ ∅ H)
    as (_ & Hfrom & Hto).
  split; [exact Hfrom | exact (Hto C)].
Defined.

(** The session of the witness ends on page 2 of 2. *)
Example view_session_calm :
  LeadsList.currentPage
    (sessionView
       (viewRun toLowerCaseAscii sixNewLeads
          [DoChange (LeadsList.PageSizeChange 5); Click LeadsList.NavNext;
           TimerFires; Click (LeadsList.NavPage 1); Click LeadsList.NavFirst;
           TimerFires; TimerFires;
           DoChange (LeadsList.SearchChange (js "lead"));
           Click LeadsList.NavLast; TimerFires]
          (mounted ∅)))
  = 2.
Proof. vm_compute. reflexivity. Qed.

(** A filter typed while a navigation waits: with pages of 5 over six
    leads, the user clicks next and types a search no lead matches before
    the 300 ms are over.  The effect puts the view on page 1; the handler
    then resumes with the page count of the click and sets page 2, of no
    page at all: the table shows the no-match message and no pagination
    controls. *)
Example view_page_beyond_last :
  offeredSizesOnly
    [DoChange (LeadsList.PageSizeChange 5); Click LeadsList.NavNext;
     DoChange (LeadsList.SearchChange (js "zzz")); TimerFires]
  /\ LeadsList.currentPage
       (sessionView
          (viewRun toLowerCaseAscii sixNewLeads
             [DoChange (LeadsList.PageSizeChange 5); Click LeadsList.NavNext;
              DoChange (LeadsList.SearchChange (js "zzz"))]
             (mounted ∅)))
     = 1
  /\ LeadsList.currentPage
       (sessionView
          (viewRun toLowerCaseAscii sixNewLeads
             [DoChange (LeadsList.PageSizeChange 5); Click LeadsList.NavNext;
              DoChange (LeadsList.SearchChange (js "zzz")); TimerFires]
             (mounted ∅)))
     = 2
  /\ LeadsList.totalPages toLowerCaseAscii sixNewLeads
       (sessionView
          (viewRun toLowerCaseAscii sixNewLeads
             [DoChange (LeadsList.PageSizeChange 5); Click LeadsList.NavNext;
              DoChange (LeadsList.SearchChange (js "zzz")); TimerFires]
             (mounted ∅)))
     = 0
  /\ LeadsList.showsNoMatch
       (LeadsList.filteredAndSortedLeads toLowerCaseAscii sixNewLeads
          (sessionView
             (viewRun toLowerCaseAscii sixNewLeads
                [DoChange (LeadsList.PageSizeChange 5);
                 Click LeadsList.NavNext;
                 DoChange (LeadsList.SearchChange (js "zzz")); TimerFires]
                (mounted ∅))))
     = true.
Proof.
  split.
  { unfold offeredSizesOnly.
    repeat match goal with
           | |- Forall _ (_ :: _) =>
               constructor; [first [exact I | simpl; tauto]|]
           | |- Forall _ [] => constructor
           end. }
  vm_compute. repeat split.
Qed.

Lemma view_reload_restores_witness :
  offeredSizesOnly
    [DoChange (LeadsList.SortChange LeadsList.name);
     DoChange (LeadsList.PageSizeChange 20); Click LeadsList.NavNext;
     DoChange (LeadsList.StatusFilterChange (LeadsList.Only Contacted));
     TimerFires]
  /\ LeadsList.pageSize
       (LeadsList.loadSavedFilters
          (sessionStore
             (viewRun toLowerCaseAscii sampleLeads
                [DoChange (LeadsList.SortChange LeadsList.name);
                 DoChange (LeadsList.PageSizeChange 20);
                 Click LeadsList.NavNext;
                 DoChange (LeadsList.StatusFilterChange
                             (LeadsList.Only Contacted));
                 TimerFires]
                (mounted ∅))))
     = LeadsList.pageSize
         (sessionView
            (viewRun toLowerCaseAscii sampleLeads
               [DoChange (LeadsList.SortChange LeadsList.name);
                DoChange (LeadsList.PageSizeChange 20);
                Click LeadsList.NavNext;
                DoChange (LeadsList.StatusFilterChange
                            (LeadsList.Only Contacted));
                TimerFires]
               (mounted ∅))).
Proof.
  assert (H : offeredSizesOnly
    [DoChange (LeadsList.SortChange LeadsList.name);
     DoChange (LeadsList.PageSizeChange 20); Click LeadsList.NavNext;
     DoChange (LeadsList.StatusFilterChange (LeadsList.Only Contacted));
     TimerFires]).
  { unfold offeredSizesOnly.
    repeat match goal with
           | |- Forall _ (_ :: _) =>
               constructor; [first [exact I | simpl; tauto]|]
           | |- Forall _ [] => constructor
           end. }
  split; [exact H|].
  apply (proj2 (proj2 (proj2 (proj2
           (view_reload_restores toLowerCaseAscii sampleLeads _ ∅ H))))).
Defined.

(** ** The order of the sorted leads *)

Section OrderFacts.

Lemma strLt_irrefl (s : jsstring) : strLt s s = false.
Proof.
  induction s as [|x s IH]; simpl; [reflexivity|].
  rewrite N.ltb_irrefl, N.eqb_refl. exact IH.
Qed.

Lemma strLt_trans (a b c : jsstring) :
  strLt a b = true -> strLt b c = true -> strLt a c = true.
Proof.
  revert b c. induction a as [|x a IH]; intros [|y b] [|z c]; simpl;
    try congruence.
  destruct (N.ltb_spec x y) as [Hxy|Hxy].
  - intros _. destruct (N.ltb_spec y z) as [Hyz|Hyz].
    + intros _. destruct (N.ltb_spec x z); [reflexivity | lia].
    + destruct (N.eqb_spec y z) as [->|]; [|discriminate].
      intros _. destruct (N.ltb_spec x z); [reflexivity | lia].
  - destruct (N.eqb_spec x y) as [->|]; [|discriminate].
    intros Hab. destruct (N.ltb_spec y z) as [Hyz|Hyz]; [reflexivity|].
    destruct (N.eqb_spec y z) as [->|]; [|discriminate].
    apply IH. exact Hab.
Qed.

Lemma strLt_total (a b : jsstring) :
  strLt a b = false -> strLt b a = false -> a = b.
Proof.
  revert b. induction a as [|x a IH]; intros [|y b]; simpl;
    try congruence.
  destruct (N.ltb_spec x y) as [Hxy|Hxy]; [discriminate|].
  destruct (N.eqb_spec x y) as [->|Hne].
  - rewrite N.ltb_irrefl, N.eqb_refl. intros H1 H2.
    f_equal. apply IH; assumption.
  - intros _. destruct (N.ltb_spec y x); [discriminate | lia].
Qed.

Lemma Zltb_total (a b : Z) : (a <? b) = false -> (b <? a) = false -> a = b.
Proof. intros H1 H2. apply Z.ltb_ge in H1, H2. lia. Qed.

Lemma Zltb_trans (a b c : Z) :
  (a <? b) = true -> (b <? c) = true -> (a <? c) = true.
Proof. rewrite !Z.ltb_lt. lia. Qed.

Context {K : Type} (lt : K -> K -> bool).
Hypothesis lt_irrefl : forall x, lt x x = false.
Hypothesis lt_trans : forall x y z, lt x y = true -> lt y z = true -> lt x z = true.
Hypothesis lt_total : forall x y, lt x y = false -> lt y x = false -> x = y.

Lemma lt_asym (x y : K) : lt x y = true -> lt y x = false.
Proof.
  intros H. destruct (lt y x) eqn:E; [|reflexivity].
  rewrite <- (lt_irrefl x). symmetry. apply (lt_trans x y x); assumption.
Qed.

Lemma keyCompare_le (o : LeadsList.SortOrder) (x y : K) :
  keyCompare lt o x y <= 0
  <-> match o with
      | LeadsList.asc => lt y x = false
      | LeadsList.desc => lt x y = false
      end.
Proof.
  unfold keyCompare. pose proof (lt_asym x y) as H1.
  pose proof (lt_asym y x) as H2.
  destruct o, (lt x y), (lt y x); simpl; split; intros H;
    try lia; try reflexivity; try discriminate;
    try (specialize (H1 eq_refl); discriminate).
Qed.

Lemma keyCompare_zero (o : LeadsList.SortOrder) (x y : K) :
  keyCompare lt o x y = 0 <-> x = y.
Proof.
  unfold keyCompare. split.
  - destruct (lt x y) eqn:E1; [destruct o; simpl; lia|].
    destruct (lt y x) eqn:E2; [destruct o; simpl; lia|].
    intros _. apply lt_total; assumption.
  - intros <-. rewrite lt_irrefl. reflexivity.
Qed.

Lemma lt_not_trans (x y z : K) :
  lt y x = false -> lt z y = false -> lt z x = false.
Proof.
  intros Hyx Hzy. destruct (lt z x) eqn:E; [|reflexivity].
  destruct (lt y z) eqn:Eyz.
  - rewrite <- Hyx. symmetry. apply (lt_trans y z x); assumption.
  - assert (z = y) by (apply lt_total; assumption). subst z. congruence.
Qed.

Lemma keyCompare_trans (o : LeadsList.SortOrder) (x y z : K) :
  keyCompare lt o x y <= 0 -> keyCompare lt o y z <= 0 ->
  keyCompare lt o x z <= 0.
Proof.
  rewrite !keyCompare_le. destruct o.
  - intros H1 H2. apply (lt_not_trans x y z); assumption.
  - intros H1 H2. apply (lt_not_trans z y x); assumption.
Qed.

End OrderFacts.

Section SortOrderFacts.

Context {A : Type} (cmp : A -> A -> Z).

Hypothesis cmp_trans :
  forall x y z, cmp x y <= 0 -> cmp y z <= 0 -> cmp x z <= 0.

Lemma ordered_head_all (x : A) (l : list A) :
  ordered cmp (x :: l) -> Forall (fun y => cmp x y <= 0) l.
Proof.
  revert x. induction l as [|y l IH]; intros x H; [constructor|].
  inversion H as [| |? ? ? Hxy Hl]; subst.
  constructor; [exact Hxy|].
  eapply Forall_impl; [apply (IH y Hl)|].
  intros z Hz. apply (cmp_trans x y z); assumption.
Qed.

Lemma ordered_tail (x : A) (l : list A) : ordered cmp (x :: l) -> ordered cmp l.
Proof.
  intros H. inversion H; subst; [constructor | assumption].
Qed.

Lemma ordered_pairs (l : list A) :
  ordered cmp l ->
  forall (i j : nat) (a b : A),
    (i < j)%nat -> l !! i = Some a -> l !! j = Some b -> cmp a b <= 0.
Proof.
  induction l as [|x l IH]; intros Ho i j a b Hij Ha Hb;
    [rewrite lookup_nil in Ha; discriminate Ha|].
  destruct j as [|j]; [lia|]. simpl in Hb.
  destruct i as [|i].
  - simpl in Ha. injection Ha as <-.
    pose proof (ordered_head_all x l Ho) as Hall.
    rewrite Forall_forall in Hall. apply Hall.
    apply (list_elem_of_lookup_2 _ j). exact Hb.
  - simpl in Ha. apply (IH (ordered_tail x l Ho) i j); [lia | assumption..].
Qed.

End SortOrderFacts.

Section SortStableFacts.

Context {A : Type} (cmp : A -> A -> Z) (p : A -> bool).

Lemma insertSorted_filter (x : A) (l : list A) :
  (p x = true -> forall y, In y l -> p y = true -> cmp x y <= 0) ->
  List.filter p (insertSorted cmp x l) = List.filter p (x :: l).
Proof.
  induction l as [|y l IH]; intros H; [reflexivity|].
  simpl insertSorted. destruct (Z.ltb_spec 0 (cmp x y)) as [Hxy|Hxy];
    [|reflexivity].
  assert (IH' : List.filter p (insertSorted cmp x l) = List.filter p (x :: l)).
  { apply IH. intros Hx z Hz. apply H; [exact Hx | now right]. }
  simpl. simpl in IH'. rewrite IH'.
  destruct (p x) eqn:Ex; [|reflexivity].
  destruct (p y) eqn:Ey; [|reflexivity].
  specialize (H eq_refl y (or_introl eq_refl) Ey). lia.
Qed.

Lemma sort_filter (l : list A) :
  (forall x y, In x l -> In y l -> p x = true -> p y = true -> cmp x y <= 0) ->
  List.filter p (sort cmp l) = List.filter p l.
Proof.
  induction l as [|x l IH]; intros H; [reflexivity|].
  change (sort cmp (x :: l)) with (insertSorted cmp x (sort cmp l)).
  rewrite insertSorted_filter.
  - simpl. rewrite IH; [reflexivity|].
    intros a b Ha Hb. apply H; now right.
  - intros Hx y Hy Hpy. apply sort_In in Hy.
    apply H; [now left | now right | assumption..].
Qed.

End SortStableFacts.

Section SortedLeadsProperties.

Import LeadsList.

Variable toLowerCase : jsstring -> jsstring.

Lemma compareLeads_key (k : SortKey) (o : SortOrder) (a b : Lead.t) :
  compareLeads toLowerCase k o a b
  = match k with
    | score => keyCompare Z.ltb o (Lead.score a) (Lead.score b)
    | name => keyCompare strLt o (toLowerCase (Lead.name a))
                         (toLowerCase (Lead.name b))
    | company => keyCompare strLt o (toLowerCase (Lead.company a))
                            (toLowerCase (Lead.company b))
    end.
Proof. destruct k; reflexivity. Qed.

Lemma compareLeads_trans (k : SortKey) (o : SortOrder) (a b c : Lead.t) :
  compareLeads toLowerCase k o a b <= 0 ->
  compareLeads toLowerCase k o b c <= 0 ->
  compareLeads toLowerCase k o a c <= 0.
Proof.
  rewrite !compareLeads_key. destruct k.
  - apply (keyCompare_trans Z.ltb Z.ltb_irrefl Zltb_trans Zltb_total).
  - apply (keyCompare_trans strLt strLt_irrefl strLt_trans strLt_total).
  - apply (keyCompare_trans strLt strLt_irrefl strLt_trans strLt_total).
Qed.

Lemma compareLeads_zero (k : SortKey) (o : SortOrder) (a b : Lead.t) :
  compareLeads toLowerCase k o a b = 0
  <-> match k with
      | score => Lead.score a = Lead.score b
      | name => toLowerCase (Lead.name a) = toLowerCase (Lead.name b)
      | company => toLowerCase (Lead.company a) = toLowerCase (Lead.company b)
      end.
Proof.
  rewrite compareLeads_key. destruct k.
  - apply (keyCompare_zero Z.ltb Z.ltb_irrefl Zltb_total).
  - apply (keyCompare_zero strLt strLt_irrefl strLt_total).
  - apply (keyCompare_zero strLt strLt_irrefl strLt_total).
Qed.

Lemma compareLeads_le (k : SortKey) (o : SortOrder) (a b : Lead.t) :
  compareLeads toLowerCase k o a b <= 0
  <-> match k, o with
      | score, asc => Lead.score a <= Lead.score b
      | score, desc => Lead.score b <= Lead.score a
      | name, asc =>
          strLt (toLowerCase (Lead.name b)) (toLowerCase (Lead.name a)) = false
      | name, desc =>
          strLt (toLowerCase (Lead.name a)) (toLowerCase (Lead.name b)) = false
      | company, asc =>
          strLt (toLowerCase (Lead.company b)) (toLowerCase (Lead.company a))
          = false
      | company, desc =>
          strLt (toLowerCase (Lead.company a)) (toLowerCase (Lead.company b))
          = false
      end.
Proof.
  rewrite compareLeads_key. destruct k.
  - rewrite (keyCompare_le Z.ltb Z.ltb_irrefl Zltb_trans).
    destruct o; rewrite Z.ltb_ge; reflexivity.
  - rewrite (keyCompare_le strLt strLt_irrefl strLt_trans).
    destruct o; reflexivity.
  - rewrite (keyCompare_le strLt strLt_irrefl strLt_trans).
    destruct o; reflexivity.
Qed.

(** The sorted leads are in the order of the sort key, over the whole
    list: of two leads shown, the earlier one never has the larger score
    when sorting by score ascending, nor the smaller one when descending;
    by name or company, the lower-cased text of the later one is never
    before that of the earlier one when ascending, and the reverse when
    descending. *)
Theorem filteredAndSortedLeads_in_order (leads : list Lead.t)
    (st : ViewState) (i j : nat) (a b : Lead.t) :
  (i < j)%nat ->
  filteredAndSortedLeads toLowerCase leads st !! i = Some a ->
  filteredAndSortedLeads toLowerCase leads st !! j = Some b ->
  match sortBy st, sortOrder st with
  | score, asc => Lead.score a <= Lead.score b
  | score, desc => Lead.score b <= Lead.score a
  | name, asc =>
      strLt (toLowerCase (Lead.name b)) (toLowerCase (Lead.name a)) = false
  | name, desc =>
      strLt (toLowerCase (Lead.name a)) (toLowerCase (Lead.name b)) = false
  | company, asc =>
      strLt (toLowerCase (Lead.company b)) (toLowerCase (Lead.company a))
      = false
  | company, desc =>
      strLt (toLowerCase (Lead.company a)) (toLowerCase (Lead.company b))
      = false
  end.
Proof.
  intros Hij Ha Hb. apply compareLeads_le.
  apply (ordered_pairs (compareLeads toLowerCase (sortBy st) (sortOrder st))
           (compareLeads_trans (sortBy st) (sortOrder st))
           (filteredAndSortedLeads toLowerCase leads st)
           (sort_ordered _ (compareLeads_asym toLowerCase (sortBy st)
                                              (sortOrder st)) _)
           i j a b Hij Ha Hb).
Qed.

(** The sort is stable: the leads with the same sort value as a lead [a]
    (the same score, or the same lower-cased name or company) are shown
    in the order they have in the lead collection. *)
Theorem filteredAndSortedLeads_stable (leads : list Lead.t) (st : ViewState)
    (a : Lead.t) :
  List.filter
    (fun b => compareLeads toLowerCase (sortBy st) (sortOrder st) a b =? 0)
    (filteredAndSortedLeads toLowerCase leads st)
  = List.filter
      (fun b => compareLeads toLowerCase (sortBy st) (sortOrder st) a b =? 0)
      (filtered toLowerCase leads (searchTerm st) (statusFilter st))
  /\ (forall b, compareLeads toLowerCase (sortBy st) (sortOrder st) a b = 0
                <-> match sortBy st with
                    | score => Lead.score a = Lead.score b
                    | name =>
                        toLowerCase (Lead.name a) = toLowerCase (Lead.name b)
                    | company =>
                        toLowerCase (Lead.company a)
                        = toLowerCase (Lead.company b)
                    end).
Proof.
  split; [|intros b; apply compareLeads_zero].
  unfold filteredAndSortedLeads. apply sort_filter.
  intros x y _ _ Hx Hy. apply Z.eqb_eq in Hx, Hy.
  assert (H : compareLeads toLowerCase (sortBy st) (sortOrder st) x y = 0);
    [|lia].
  apply compareLeads_zero. apply compareLeads_zero in Hx, Hy.
  destruct (sortBy st); congruence.
Qed.

End SortedLeadsProperties.

Lemma filteredAndSortedLeads_in_order_witness :
  ((0 < 2)%nat
   /\ LeadsList.filteredAndSortedLeads toLowerCaseAscii sampleLeads
        LeadsList.initial !! 0%nat = Some leadAcme
   /\ LeadsList.filteredAndSortedLeads toLowerCaseAscii sampleLeads
        LeadsList.initial !! 2%nat = Some leadBolt)
  /\ Lead.score leadBolt <= Lead.score leadAcme.
Proof.
  assert (H : (0 < 2)%nat) by lia.
  split; [repeat split; exact H|].
  apply (filteredAndSortedLeads_in_order toLowerCaseAscii sampleLeads
           LeadsList.initial 0 2 leadAcme leadBolt H eq_refl eq_refl).
Defined.

Example sort_keeps_ties_in_order :
  LeadsList.filteredAndSortedLeads toLowerCaseAscii
    [leadBolt; leadCira; leadAcme] LeadsList.initial
  = [leadCira; leadAcme; leadBolt].
Proof. reflexivity. Qed.

(** ** Sessions of the detail panel *)

Section PanelProperties.

Import LeadDetailPanel.

Lemma sameFixedFields_refl (a : Lead.t) : sameFixedFields a a.
Proof. repeat split. Qed.

Lemma handleSave_emits (random : Q) (st : PanelState) (u : Lead.t) :
  snd (handleSave random st) = Some u ->
  u = editedLead st /\ emailShape (Lead.email u)
  /\ numLt random (1 # 10) = false
  /\ fst (handleSave random st)
     = setIsSaving false (setErrors None (setIsEditing false
                                            (setIsSaving true st))).
Proof.
  unfold handleSave.
  destruct (validateEmail (Lead.email (editedLead st))) eqn:E; cbn [negb];
    [|discriminate].
  destruct (numLt random (1 # 10)); [discriminate|].
  cbn [snd fst]. intros H. injection H as <-.
  split; [reflexivity|]. split; [|split; reflexivity].
  apply validateEmail_spec. exact E.
Qed.

Lemma handleSave_buffer (random : Q) (st : PanelState) :
  editedLead (fst (handleSave random st)) = editedLead st.
Proof.
  unfold handleSave.
  destruct (negb (validateEmail (Lead.email (editedLead st))));
    [reflexivity|].
  destruct (numLt random (1 # 10)); reflexivity.
Qed.

Lemma panelStep_fixed (lead0 : Lead.t) (cur : Lead.t * PanelState)
    (a : PanelAction) :
  sameFixedFields (fst cur) lead0 ->
  sameFixedFields (editedLead (snd cur)) lead0 ->
  sameFixedFields (fst (fst (panelStep cur a))) lead0
  /\ sameFixedFields (editedLead (snd (fst (panelStep cur a)))) lead0
  /\ (forall u, snd (panelStep cur a) = Some u ->
        sameFixedFields u lead0 /\ emailShape (Lead.email u)).
Proof.
  destruct cur as [lead st]. cbn [fst snd]. intros Hl Hb.
  assert (Hnone : forall u : Lead.t,
            @None Lead.t = Some u ->
            sameFixedFields u lead0 /\ emailShape (Lead.email u))
    by (intros u H; discriminate H).
  destruct a as [|v|v|r|]; unfold panelStep.
  - cbn [fst snd]. split; [exact Hl|]. split; [exact Hb | exact Hnone].
  - cbn [fst snd]. split; [exact Hl|]. split; [|exact Hnone].
    unfold handleEmailChange.
    destruct (errors st) as [m|]; [destruct (truthy m)|];
      destruct Hb as (?&?&?&?&?); repeat split; assumption.
  - cbn [fst snd]. split; [exact Hl|]. split; [|exact Hnone].
    destruct Hb as (?&?&?&?&?); repeat split; assumption.
  - pose proof (handleSave_emits r st) as He.
    pose proof (handleSave_buffer r st) as Hbuf.
    destruct (handleSave r st) as [st' [u|]]; cbn [fst snd] in *.
    + destruct (He u eq_refl) as (-> & Hshape & _).
      split; [exact Hb|]. split; [exact Hb|].
      intros u' H. injection H as <-. split; [exact Hb | exact Hshape].
    + rewrite Hbuf. split; [exact Hl|]. split; [exact Hb | exact Hnone].
  - cbn [fst snd]. split; [exact Hl|]. split; [exact Hl | exact Hnone].
Qed.

Lemma panelRun_fixed (lead0 : Lead.t) (acts : list PanelAction)
    (cur : Lead.t * PanelState) :
  sameFixedFields (fst cur) lead0 ->
  sameFixedFields (editedLead (snd cur)) lead0 ->
  sameFixedFields (fst (fst (panelRun acts cur))) lead0
  /\ sameFixedFields (editedLead (snd (fst (panelRun acts cur)))) lead0
  /\ Forall (fun u => sameFixedFields u lead0 /\ emailShape (Lead.email u))
            (snd (panelRun acts cur)).
Proof.
  revert cur. induction acts as [|a acts IH]; intros cur Hl Hb.
  - simpl. split; [exact Hl|]. split; [exact Hb | constructor].
  - destruct (panelStep_fixed lead0 cur a Hl Hb) as (Hl' & Hb' & Hu).
    simpl. destruct (panelStep cur a) as [cur' emitted]. cbn [fst snd] in *.
    specialize (IH cur' Hl' Hb').
    destruct (panelRun acts cur') as [final updates]. cbn [fst snd] in *.
    destruct IH as (H1 & H2 & H3).
    split; [exact H1|]. split; [exact H2|].
    apply Forall_app. split; [exact H3|].
    destruct emitted as [u|]; constructor; [apply Hu; reflexivity|constructor].
Qed.

(** Whatever is done in the panel opened on a lead (edit, type an email,
    pick a status, save, cancel, in any order), every record Update lead
    is called with has an email of the valid shape and the id, name,
    company, source and score of that lead; so have the lead shown and
    the edit buffer at the end. *)
Theorem panel_updates_are_valid (lead : Lead.t) (acts : list PanelAction) :
  Forall (fun u => sameFixedFields u lead /\ emailShape (Lead.email u))
         (snd (panelRun acts (lead, opened lead)))
  /\ sameFixedFields (fst (fst (panelRun acts (lead, opened lead)))) lead
  /\ sameFixedFields
       (editedLead (snd (fst (panelRun acts (lead, opened lead))))) lead.
Proof.
  destruct (panelRun_fixed lead acts (lead, opened lead)
              (sameFixedFields_refl lead) (sameFixedFields_refl lead))
    as (H1 & H2 & H3).
  split; [exact H3|]. split; assumption.
Qed.

Example panel_session :
  snd (panelRun [Edit; TypeEmail (js "bo at bolt"); Save 1;
                 TypeEmail (js "bo@bolt.example.org"); PickStatus Qualified;
                 Save (1 # 20); Save (1 # 2)]
                (leadBolt, opened leadBolt))
  = [Lead.withStatus Qualified
       (Lead.withEmail (js "bo@bolt.example.org") leadBolt)].
Proof. reflexivity. Qed.



(** An email that passes the check has exactly one '@', no white space,
    a '.' somewhere after the '@', and at least five characters. *)
Theorem validateEmail_necessary (email : jsstring) :
  validateEmail email = true ->
  length (List.filter (N.eqb 64) email) = 1%nat
  /\ Forall (fun c => isWhiteSpace c = false) email
  /\ (exists before after,
        email = before ++ [64%N] ++ after /\ In 46%N after)
  /\ (5 <= length email)%nat.
Proof.
  intros H. apply validateEmail_spec in H
    as (u & v & w & -> & (Hu & Fu) & (Hv & Fv) & (Hw & Fw)).
  assert (Hno : forall x : jsstring,
            Forall (fun c => isWhiteSpace c = false /\ c <> 64%N) x ->
            List.filter (N.eqb 64) x = []).
  { intros x Hx. induction Hx as [|c x [_ Hc] _ IH]; [reflexivity|].
    cbn [List.filter]. destruct (N.eqb_spec 64 c); [congruence | exact IH]. }
  assert (Hws : forall x : jsstring,
            Forall (fun c => isWhiteSpace c = false /\ c <> 64%N) x ->
            Forall (fun c => isWhiteSpace c = false) x).
  { intros x Hx. eapply Forall_impl; [exact Hx|]. intros c [Hc _]. exact Hc. }
  split; [|split; [|split]].
  - unfold jsstring, char16 in *.
    rewrite !List.filter_app, (Hno u Fu), (Hno v Fv), (Hno w Fw).
    reflexivity.
  - repeat (apply Forall_app; split); auto;
      constructor; try constructor; reflexivity.
  - exists u, (v ++ [46%N] ++ w). split; [reflexivity|].
    apply in_or_app. right. left. reflexivity.
  - rewrite !length_app. simpl.
    destruct u, v, w; try contradiction; simpl; lia.
Qed.

Lemma validateEmail_necessary_witness :
  validateEmail (js "bo@bolt.example") = true
  /\ length (List.filter (N.eqb 64) (js "bo@bolt.example")) = 1%nat.
Proof.
  split; [reflexivity|].
  apply (validateEmail_necessary (js "bo@bolt.example") eq_refl).
Defined.

End PanelProperties.

(** ** Updates and conversions seen through the leads view *)

Section UpdateInViewProperties.

Import LeadsList.

Variable toLowerCase : jsstring -> jsstring.

Lemma filteredAndSortedLeads_length (leads : list Lead.t) (st : ViewState) :
  length (filteredAndSortedLeads toLowerCase leads st)
  = length (filtered toLowerCase leads (searchTerm st) (statusFilter st)).
Proof. apply Permutation_length, filteredAndSortedLeads_perm. Qed.

Lemma filter_sublist {A : Type} (p : A -> bool) (l : list A) :
  sublist (List.filter p l) l.
Proof.
  induction l as [|x l IH]; simpl; [constructor|].
  destruct (p x); constructor; exact IH.
Qed.

(** Filtering and sorting neither invents nor repeats leads: what is
    shown is a rearrangement of the leads that pass the filter, which are
    leads of the collection in the order of the collection; so there are
    at most as many as in the collection, and distinct ids stay
    distinct. *)
Theorem filteredAndSortedLeads_rearranges (leads : list Lead.t)
    (st : ViewState) :
  Permutation (filteredAndSortedLeads toLowerCase leads st)
              (filtered toLowerCase leads (searchTerm st) (statusFilter st))
  /\ sublist (filtered toLowerCase leads (searchTerm st) (statusFilter st))
             leads
  /\ (length (filteredAndSortedLeads toLowerCase leads st) <= length leads)%nat
  /\ (List.NoDup (map Lead.id leads) ->
      List.NoDup (map Lead.id (filteredAndSortedLeads toLowerCase leads st))).
Proof.
  pose proof (filteredAndSortedLeads_perm toLowerCase leads st) as Hp.
  pose proof (filter_sublist (keeps toLowerCase (searchTerm st) (statusFilter st))
                             leads) as Hs.
  split; [exact Hp|]. split; [exact Hs|]. split.
  - rewrite (Permutation_length Hp). apply sublist_length. exact Hs.
  - intros Hnd. apply NoDup_ListNoDup.
    apply NoDup_ListNoDup in Hnd.
    rewrite (Permutation_map Lead.id Hp).
    apply (sublist_NoDup _ (map Lead.id leads)); [exact Hnd|].
    apply (fmap_sublist Lead.id). exact Hs.
Qed.

Lemma keeps_same_text (s : jsstring) (f : StatusFilter) (a b : Lead.t) :
  Lead.name a = Lead.name b -> Lead.company a = Lead.company b ->
  keeps toLowerCase s f a
  = matchesSearch toLowerCase s b && matchesStatus f a.
Proof.
  intros Hn Hc. unfold keeps, matchesSearch. rewrite Hn, Hc. reflexivity.
Qed.

(** A converted lead is listed exactly under the filters its new status
    passes: the record with status 'Qualified' is shown iff the lead's
    name or company matches the search text and the status filter is
    'All' or 'Qualified'; under the filters 'New' and 'Contacted' no lead
    with its id is shown any more. *)
Theorem converted_lead_in_view (random : draw) (X : Lead.t) (st : App.State)
    (view : ViewState) :
  In X (App.leads st) ->
  (In (Lead.withStatus Qualified X)
      (filteredAndSortedLeads toLowerCase
         (App.leads (App.handleConvertToOpportunity random X st)) view)
   <-> matchesSearch toLowerCase (searchTerm view) X = true
       /\ (statusFilter view = All \/ statusFilter view = Only Qualified))
  /\ (statusFilter view = Only New \/ statusFilter view = Only Contacted ->
      forall l : Lead.t,
        In l (filteredAndSortedLeads toLowerCase
                (App.leads (App.handleConvertToOpportunity random X st)) view) ->
        Lead.id l <> Lead.id X).
Proof.
  intros HX.
  assert (Hleads : App.leads (App.handleConvertToOpportunity random X st)
                   = map (fun lead =>
                            if Lead.id lead
                               =? Lead.id (Lead.withStatus Qualified X)
                            then Lead.withStatus Qualified X else lead)
                         (App.leads st)) by reflexivity.
  rewrite Hleads. unfold filteredAndSortedLeads. split.
  - rewrite sort_In, filtered_In.
    rewrite (keeps_same_text _ _ (Lead.withStatus Qualified X) X)
      by reflexivity.
    rewrite andb_true_iff, matchesStatus_spec. cbn [Lead.status Lead.withStatus].
    split.
    + intros (_ & Hs & Hf). tauto.
    + intros (Hs & Hf). split; [|tauto].
      apply (In_map_replace_self _ _ X); [exact HX | reflexivity].
  - intros Hf l Hl Hid. apply sort_In, filtered_In in Hl as [Hin Hk].
    apply In_map_replace_inv in Hin; [|exact Hid]. subst l.
    unfold keeps in Hk. apply andb_true_iff in Hk as [_ Hk].
    apply matchesStatus_spec in Hk. cbn [Lead.status Lead.withStatus] in Hk.
    destruct Hf as [Hf|Hf]; rewrite Hf in Hk; destruct Hk; discriminate.
Qed.

End UpdateInViewProperties.

Lemma converted_lead_in_view_witness :
  In leadAcme (App.leads stateReady)
  /\ In (Lead.withStatus Qualified leadAcme)
        (LeadsList.filteredAndSortedLeads toLowerCaseAscii
           (App.leads (App.handleConvertToOpportunity drawHalf leadAcme
                                                      stateReady))
           (LeadsList.setStatusFilter (LeadsList.Only Qualified)
                                      LeadsList.initial)).
Proof.
  assert (H : In leadAcme (App.leads stateReady)) by (simpl; auto).
  split; [exact H|].
  apply (proj2 (proj1 (converted_lead_in_view toLowerCaseAscii drawHalf
                         leadAcme stateReady
                         (LeadsList.setStatusFilter
                            (LeadsList.Only Qualified) LeadsList.initial)
                         H))).
  split; [reflexivity | right; reflexivity].
Defined.

Section UpdateShrinksProperties.

Import LeadsList.

Variable toLowerCase : jsstring -> jsstring.

Lemma filter_replace_length (p : Lead.t -> bool) (R X : Lead.t)
    (ls : list Lead.t) :
  List.NoDup (map Lead.id ls) -> In X ls -> Lead.id R = Lead.id X ->
  p X = true -> p R = false ->
  length (List.filter p ls)
  = S (length (List.filter p
                 (map (fun lead =>
                         if Lead.id lead =? Lead.id R then R else lead)
                      ls))).
Proof.
  intros Hnd HX Hid HpX HpR.
  induction ls as [|y ls IH]; [contradiction|].
  simpl in Hnd. apply List.NoDup_cons_iff in Hnd as [Hy Hnd].
  destruct HX as [->|HX].
  - cbn [map List.filter]. rewrite Hid, Z.eqb_refl, HpR, HpX.
    rewrite <- Hid. rewrite map_replace_no_match; [simpl; lia|].
    intros l Hl E. apply Hy. rewrite <- Hid, <- E. apply in_map. exact Hl.
  - assert (Hne : Lead.id y <> Lead.id R).
    { intros E. apply Hy. rewrite E, Hid. apply in_map. exact HX. }
    cbn [map List.filter].
    destruct (Z.eqb_spec (Lead.id y) (Lead.id R)) as [E|_]; [contradiction|].
    specialize (IH Hnd HX).
    destruct (p y); simpl; lia.
Qed.

(** Saving an edit that makes a listed lead fail the filter (its status
    is no longer the filtered one) takes exactly one lead off the list,
    and the page index stays: when the last page, not being the first,
    held a single lead, the view then shows no row on that page although
    leads pass the filter and the no-match message is not shown. *)
Theorem update_can_empty_page (R X : Lead.t) (st : App.State)
    (view : ViewState) :
  List.NoDup (map Lead.id (App.leads st)) ->
  In X (App.leads st) -> Lead.id R = Lead.id X ->
  keeps toLowerCase (searchTerm view) (statusFilter view) X = true ->
  keeps toLowerCase (searchTerm view) (statusFilter view) R = false ->
  length (filteredAndSortedLeads toLowerCase (App.leads st) view)
  = S (length (filteredAndSortedLeads toLowerCase
                 (App.leads (App.handleLeadUpdate R st)) view))
  /\ (0 < pageSize view -> 2 <= currentPage view ->
      Z.of_nat (length (filteredAndSortedLeads toLowerCase (App.leads st) view))
      = (currentPage view - 1) * pageSize view + 1 ->
      paginatedLeads toLowerCase (App.leads (App.handleLeadUpdate R st)) view
      = []
      /\ showsNoMatch (filteredAndSortedLeads toLowerCase
                         (App.leads (App.handleLeadUpdate R st)) view)
         = false
      /\ length (paginatedLeads toLowerCase (App.leads st) view) = 1%nat).
Proof.
  intros Hnd HX Hid HkX HkR.
  assert (Hlen : length (filteredAndSortedLeads toLowerCase
                           (App.leads st) view)
                 = S (length (filteredAndSortedLeads toLowerCase
                                (App.leads (App.handleLeadUpdate R st))
                                view))).
  { rewrite !filteredAndSortedLeads_length, setters_leads.
    apply (filter_replace_length _ R X); assumption. }
  split; [exact Hlen|].
  intros Hp Hpage Hlast.
  pose proof (length_pageOf
                (filteredAndSortedLeads toLowerCase
                   (App.leads (App.handleLeadUpdate R st)) view)
                (currentPage view) (pageSize view) Hp ltac:(lia)) as H1.
  pose proof (length_pageOf
                (filteredAndSortedLeads toLowerCase (App.leads st) view)
                (currentPage view) (pageSize view) Hp ltac:(lia)) as H2.
  unfold paginatedLeads. split; [|split].
  - apply length_zero_iff_nil. lia.
  - unfold showsNoMatch. apply Z.eqb_neq. nia.
  - lia.
Qed.

End UpdateShrinksProperties.

Lemma update_can_empty_page_witness :
  (List.NoDup (map Lead.id (App.leads stateSixNew))
   /\ LeadsList.keeps toLowerCaseAscii (LeadsList.searchTerm viewNewPage2)
        (LeadsList.statusFilter viewNewPage2)
        (Lead.withStatus Contacted
           (Lead.mk 3 (js "Lead") (js "Company") (js "lead@company.example")
                    (js "Web") 3 New))
      = false)
  /\ LeadsList.paginatedLeads toLowerCaseAscii
       (App.leads
          (App.handleLeadUpdate
             (Lead.withStatus Contacted
                (Lead.mk 3 (js "Lead") (js "Company")
                         (js "lead@company.example") (js "Web") 3 New))
             stateSixNew))
       viewNewPage2
     = [].
Proof.
  assert (Hnd : List.NoDup (map Lead.id (App.leads stateSixNew))).
  { apply NoDup_ListNoDup. vm_compute.
    repeat (apply NoDup_cons_2; [rewrite ?list_elem_of_In; simpl; lia|]).
    apply NoDup_nil_2. }
  split; [split; [exact Hnd | reflexivity]|].
  apply (proj2 (update_can_empty_page toLowerCaseAscii
                  (Lead.withStatus Contacted
                     (Lead.mk 3 (js "Lead") (js "Company")
                              (js "lead@company.example") (js "Web") 3 New))
                  (Lead.mk 3 (js "Lead") (js "Company")
                           (js "lead@company.example") (js "Web") 3 New)
                  stateSixNew viewNewPage2 Hnd
                  ltac:(simpl; auto) eq_refl eq_refl eq_refl));
    [reflexivity | vm_compute; discriminate | reflexivity].
Defined.

(** ** The keys of the store *)

Section StoreProperties.

Import LeadsList.

(** The view writes only its own keys: a change of the search text, the
    status filter or the sort leaves every other key of the store as it
    was, the stored page size included; a change of the page size leaves
    every key other than the five preference keys as it was. *)
Theorem change_writes_own_keys (c : Change) (st : ViewState)
    (store : Storage) (key : string) :
  key <> "leads-search" -> key <> "leads-status-filter" ->
  key <> "leads-sort-by" -> key <> "leads-sort-order" ->
  (key <> "leads-page-size" \/ forall v, c <> PageSizeChange v) ->
  snd (change c (st, store)) !! key = store !! key.
Proof.
  intros H1 H2 H3 H4 H5.
  destruct c as [v|f|k|n]; unfold change;
    [ unfold handleSearchChange | unfold handleStatusFilterChange
    | unfold handleSortChange | unfold handlePageSizeChange ];
    cbn [snd]; unfold saveFilters, setItem.
  1-3: rewrite !lookup_insert_ne by congruence; reflexivity.
  destruct H5 as [H5|H5]; [|exfalso; apply (H5 n); reflexivity].
  destruct (n =? 0); rewrite !lookup_insert_ne by congruence; reflexivity.
Qed.

Lemma change_writes_own_keys_witness :
  ("leads-page-size" <> "leads-search"
   /\ "leads-page-size" <> "leads-status-filter"
   /\ "leads-page-size" <> "leads-sort-by"
   /\ "leads-page-size" <> "leads-sort-order")
  /\ snd (change (SortChange name)
                 (initial, <["leads-page-size" := js "20"]> ∅))
     !! "leads-page-size"
     = Some (js "20").
Proof.
  split; [repeat split; discriminate|].
  rewrite (change_writes_own_keys (SortChange name) initial
             (<["leads-page-size" := js "20"]> ∅) "leads-page-size");
    try discriminate.
  - reflexivity.
  - right. intros v. discriminate.
Defined.

End StoreProperties.

(** ** Updates of the same lead and of different leads *)

Section UpdateComposition.

Import App.

(** A later update of a lead overrides an earlier update of the same
    lead entirely, and updates of two different leads give the same lead
    collection in either order. *)
Theorem handleLeadUpdate_composes (R1 R2 : Lead.t) (st : State) :
  (Lead.id R1 = Lead.id R2 ->
   leads (handleLeadUpdate R2 (handleLeadUpdate R1 st))
   = leads (handleLeadUpdate R2 st))
  /\ (Lead.id R1 <> Lead.id R2 ->
      leads (handleLeadUpdate R2 (handleLeadUpdate R1 st))
      = leads (handleLeadUpdate R1 (handleLeadUpdate R2 st)))
  /\ leads (handleLeadUpdate R1 (handleLeadUpdate R1 st))
     = leads (handleLeadUpdate R1 st).
Proof.
  rewrite !setters_leads, !map_map.
  assert (Hcases : forall l : Lead.t,
            (Lead.id R1 = Lead.id R2 ->
             (if Lead.id (if Lead.id l =? Lead.id R1 then R1 else l)
                 =? Lead.id R2 then R2
              else if Lead.id l =? Lead.id R1 then R1 else l)
             = (if Lead.id l =? Lead.id R2 then R2 else l))
            /\ (Lead.id R1 <> Lead.id R2 ->
                (if Lead.id (if Lead.id l =? Lead.id R1 then R1 else l)
                    =? Lead.id R2 then R2
                 else if Lead.id l =? Lead.id R1 then R1 else l)
                = (if Lead.id (if Lead.id l =? Lead.id R2 then R2 else l)
                      =? Lead.id R1 then R1
                   else if Lead.id l =? Lead.id R2 then R2 else l))
            /\ (if Lead.id (if Lead.id l =? Lead.id R1 then R1 else l)
                    =? Lead.id R1 then R1
                else if Lead.id l =? Lead.id R1 then R1 else l)
               = (if Lead.id l =? Lead.id R1 then R1 else l)).
  { intros l.
    destruct (Z.eqb_spec (Lead.id l) (Lead.id R1)),
             (Z.eqb_spec (Lead.id l) (Lead.id R2));
      repeat match goal with
             | |- context [?a =? ?b] => destruct (Z.eqb_spec a b)
             end;
      repeat split; intros; congruence. }
  split; [|split].
  - intros Hid. apply map_ext. intros l. apply (Hcases l), Hid.
  - intros Hne. apply map_ext. intros l. apply (Hcases l), Hne.
  - apply map_ext. intros l. apply (Hcases l).
Qed.

Lemma handleLeadUpdate_composes_witness :
  Lead.id (Lead.withStatus Qualified leadBolt) <> Lead.id leadStray
  /\ leads (handleLeadUpdate leadStray
              (handleLeadUpdate (Lead.withStatus Qualified leadBolt)
                                stateReady))
     = leads (handleLeadUpdate (Lead.withStatus Qualified leadBolt)
                (handleLeadUpdate leadStray stateReady)).
Proof.
  assert (H : Lead.id (Lead.withStatus Qualified leadBolt)
              <> Lead.id leadStray) by discriminate.
  split; [exact H|].
  apply (proj1 (proj2 (handleLeadUpdate_composes
                         (Lead.withStatus Qualified leadBolt) leadStray
                         stateReady)) H).
Defined.

End UpdateComposition.

Lemma randomAmount64_range_witness :
  (0 <= 2 ^ 52 < 2 ^ 53 /\ 53 <= 53 <= 1074)
  /\ 10000 <= App.randomAmount64 (2 ^ 52) 53 < 110000.
Proof.
  assert (H1 : 0 <= 2 ^ 52 < 2 ^ 53) by lia.
  assert (H2 : 53 <= 53 <= 1074) by lia.
  split; [split; assumption|].
  apply (proj1 randomAmount64_range (2 ^ 52) 53 H1 H2).
Defined.
